(** * River-profile clustering: slope estimation, resampling and clustering

    A shallow embedding of the analysis functions of
    [plot-river-clusters.py] ([find_nearest_idx], [CalculateSlope],
    [ResampleProfiles], [ClusterProfiles]) together with the properties
    of the pipeline they implement.

    Conventions.
    - The script is Python 2 (it uses the [print] statement), so [/] on two
      integers is floor division; [Z.div] is used for it.
    - A float64 is idealised as a rational or the missing value: [cell];
      an angle is a real number or the missing value.
    - numpy arrays and pandas columns are lists; Python integers are [Z].
    - A raised exception is a value of [result].
    - Tables are objects of a store, passed by address; the functions that
      take or return a table run in the monad [M] over the store and a log
      of the stages run.
    - numpy, pandas and [scipy.stats.linregress] are modelled by what their
      documentation says of the calls made; the correlation and the
      hierarchical clustering are a parameter ([Externals]); plotting is
      an event of the log.

    The first part holds the embedding, the statements the properties are
    about and a few sample tables; the second part holds the proofs. *)

From Stdlib Require Import List ZArith QArith Qabs Lia Bool String.
From Stdlib Require Import Sorted Reals Qreals Psatz.
Import ListNotations.

Set Implicit Arguments.
Local Open Scope Z_scope.

(* ================================================================== *)
(** ** Exceptions *)

Inductive exn : Type :=
| KeyError (key : string)
| IndexError
| ValueError (msg : string)
| ZeroDivisionError
| NameError (name : string).

Inductive result (A : Type) : Type :=
| Ok (a : A)
| Raise (e : exn).

Arguments Ok {A} a.
Arguments Raise {A} e.

Definition bind {A B} (m : result A) (k : A -> result B) : result B :=
  match m with
  | Ok a => k a
  | Raise e => Raise e
  end.

Notation "x <- m ;; k" := (bind m (fun x => k))
  (at level 61, m at next level, right associativity).

(* ================================================================== *)
(** ** Python sequences *)

Module Py.

Definition len {A} (l : list A) : Z := Z.of_nat (List.length l).

(** [l[i]]: a negative index counts from the end, anything outside
    [-len, len) raises [IndexError]. *)
Definition getitem {A} (l : list A) (i : Z) : result A :=
  let j := if i <? 0 then i + len l else i in
  if (0 <=? j) && (j <? len l) then
    match nth_error l (Z.to_nat j) with
    | Some x => Ok x
    | None => Raise IndexError
    end
  else Raise IndexError.

(** A slice bound: negative bounds count from the end, and the result is
    clamped to [0, len]. *)
Definition clamp (n k : Z) : Z :=
  if k <? 0 then Z.max 0 (k + n) else Z.min k n.

(** [l[start:stop]]. *)
Definition slice {A} (l : list A) (start stop : Z) : list A :=
  let lo := clamp (len l) start in
  let hi := clamp (len l) stop in
  firstn (Z.to_nat (hi - lo)) (skipn (Z.to_nat lo) l).

(** [range(n)]. *)
Definition range (n : Z) : list Z :=
  map Z.of_nat (seq 0 (Z.to_nat n)).

(** [np.arange(start, stop, step)] on integers: [ceil((stop-start)/step)]
    values; numpy raises on a zero step. *)
Fixpoint arange_from (start step : Z) (count : nat) : list Z :=
  match count with
  | O => []
  | S c => start :: arange_from (start + step) step c
  end.

Definition arange (start stop step : Z) : result (list Z) :=
  if step =? 0 then Raise ZeroDivisionError
  else if 0 <? step then
    Ok (arange_from start step (Z.to_nat ((stop - start + step - 1) / step)))
  else
    Ok (arange_from start step (Z.to_nat ((start - stop - step - 1) / (- step)))).

End Py.

(* ================================================================== *)
(** ** Floating-point values *)

(** A float64: either [nan] or a number. *)
Inductive cell : Type :=
| NaN
| Num (q : Q).

Definition Qlt_bool (x y : Q) : bool := negb (Qle_bool y x).

(** [abs(x)] on a float. *)
Definition cabs (c : cell) : cell :=
  match c with
  | NaN => NaN
  | Num q => Num (Qabs q)
  end.

(** [np.isnan]. *)
Definition isnan (c : cell) : bool :=
  match c with
  | NaN => true
  | Num _ => false
  end.

(** The same value: both missing, or equal numbers. *)
Definition cell_same (a b : cell) : Prop :=
  match a, b with
  | NaN, NaN => True
  | Num x, Num y => (x == y)%Q
  | _, _ => False
  end.

(* ================================================================== *)
(** ** [find_nearest_idx] *)

(** [a < b] on floats: false as soon as one side is [nan]. *)
Definition cell_ltb (a b : cell) : bool :=
  match a, b with
  | Num x, Num y => Qlt_bool x y
  | _, _ => false
  end.

Definition csub (a b : cell) : cell :=
  match a, b with
  | Num x, Num y => Num (x - y)
  | _, _ => NaN
  end.

(** [math.fabs]. *)
Definition fabs (x : cell) : cell := cabs x.

(** The order numpy sorts floats by: [nan] comes last. *)
Definition np_lt (a b : cell) : bool :=
  match a, b with
  | Num x, Num y => Qlt_bool x y
  | Num _, NaN => true
  | NaN, _ => false
  end.

(** [np.searchsorted(array, value, side="left")] on a sorted array: the
    first position whose element is not below [value], i.e. the index [i]
    with [array[i-1] < value <= array[i]] (numpy finds it by bisection). *)
Fixpoint searchsorted_left (array : list cell) (value : cell) : Z :=
  match array with
  | [] => 0
  | x :: rest =>
      if np_lt x value then 1 + searchsorted_left rest value else 0
  end.

Definition find_nearest_idx (array : list cell) (value : cell) : result Z :=
  let idx := searchsorted_left array value in
  if 0 <? idx then
    if idx =? Py.len array then Ok (idx - 1)
    else
      below <- Py.getitem array (idx - 1) ;;
      above <- Py.getitem array idx ;;
      if cell_ltb (fabs (csub value below)) (fabs (csub value above))
      then Ok (idx - 1)
      else Ok idx
  else Ok idx.

(** A numpy array of numbers. *)
Definition floats_of (qs : list Q) : list cell := map Num qs.

(* ================================================================== *)
(** ** Tables *)

(** A pandas [DataFrame] as the profile tables use it: row labels
    ([index]), the integer source-id column ['id'] when the frame has one,
    and named float64 columns.  Every column has one entry per row. *)
Record DataFrame : Type := mkDF {
  index : list Z;
  id : option (list Z);
  floats : list (string * list cell)
}.

(** [pd.DataFrame()]. *)
Definition empty_frame : DataFrame := mkDF [] None [].

Fixpoint assoc (k : string) (cols : list (string * list cell))
  : option (list cell) :=
  match cols with
  | [] => None
  | (k', v) :: rest => if String.eqb k k' then Some v else assoc k rest
  end.

(** [df['id']]. *)
Definition get_id (df : DataFrame) : result (list Z) :=
  match id df with
  | Some xs => Ok xs
  | None => Raise (KeyError "id")
  end.

(** [df[name]] for a float column. *)
Definition get_col (df : DataFrame) (name : string) : result (list cell) :=
  match assoc name (floats df) with
  | Some xs => Ok xs
  | None => Raise (KeyError name)
  end.

(** [Series.unique()]: the distinct values in order of first appearance. *)
Fixpoint unique (l : list Z) : list Z :=
  match l with
  | [] => []
  | x :: rest => x :: filter (fun y => negb (y =? x)) (unique rest)
  end.

(** [xs[mask]]: the entries where the boolean mask holds. *)
Fixpoint take_mask {A} (mask : list bool) (xs : list A) : list A :=
  match mask, xs with
  | b :: m, x :: r => if b then x :: take_mask m r else take_mask m r
  | _, _ => []
  end.

(** [df[mask]]: boolean row selection; labels are kept. *)
Definition select (df : DataFrame) (mask : list bool) : DataFrame :=
  mkDF (take_mask mask (index df))
       (option_map (take_mask mask) (id df))
       (map (fun kv => (fst kv, take_mask mask (snd kv))) (floats df)).

(** [df.loc[mask, name] = values] on one column: the masked rows take
    the successive values, the others keep theirs.  The script assigns one
    value per masked row. *)
Fixpoint scatter (mask : list bool) (old vals : list cell) : list cell :=
  match mask, old with
  | b :: m, x :: o =>
      if b then
        match vals with
        | v :: vs => v :: scatter m o vs
        | [] => x :: scatter m o []
        end
      else x :: scatter m o vals
  | _, _ => []
  end.

Fixpoint replace_col (k : string) (v : list cell)
  (cols : list (string * list cell)) : list (string * list cell) :=
  match cols with
  | [] => [(k, v)]
  | (k', v') :: rest =>
      if String.eqb k k' then (k, v) :: rest
      else (k', v') :: replace_col k v rest
  end.

(** The column [name], or an all-[nan] column when the frame has none
    (pandas creates it so before assigning). *)
Definition col_or_nan (df : DataFrame) (name : string) : list cell :=
  match assoc name (floats df) with
  | Some xs => xs
  | None => map (fun _ => NaN) (index df)
  end.

(** [df.loc[mask, name] = values] with an array of values. *)
Definition loc_set (df : DataFrame) (mask : list bool) (name : string)
  (vals : list cell) : DataFrame :=
  mkDF (index df) (id df)
       (replace_col name (scatter mask (col_or_nan df name) vals) (floats df)).

(** [df.loc[mask, name] = v] with a scalar. *)
Definition loc_set_scalar (df : DataFrame) (mask : list bool) (name : string)
  (v : cell) : DataFrame :=
  loc_set df mask name (map (fun _ => v) mask).

(** [df.append(other)]: the rows of [other] after those of [df]; a float
    column missing on one side is filled with [nan].  The script appends
    selections of one table to a table that starts empty, so the id column
    is on both sides or the side without it has no rows. *)
Definition append_col (n1 n2 : nat) (a b : option (list cell)) : list cell :=
  match a with Some xs => xs | None => repeat NaN n1 end ++
  match b with Some ys => ys | None => repeat NaN n2 end.

Definition append (df other : DataFrame) : DataFrame :=
  let n1 := List.length (index df) in
  let n2 := List.length (index other) in
  let names :=
    map fst (floats df) ++
    filter (fun k => match assoc k (floats df) with Some _ => false | None => true end)
           (map fst (floats other)) in
  mkDF (index df ++ index other)
       (match id df, id other with
        | Some a, Some b => Some (a ++ b)
        | Some a, None => if (n2 =? 0)%nat then Some a else None
        | None, Some b => if (n1 =? 0)%nat then Some b else None
        | None, None => None
        end)
       (map (fun k => (k, append_col n1 n2 (assoc k (floats df)) (assoc k (floats other))))
            names).

(* ================================================================== *)
(** ** Linear regression *)

Definition Qsum (xs : list Q) : Q := fold_right Qplus 0%Q xs.

(** The numbers of a two-column array, when none is [nan]. *)
Fixpoint numeric (pts : list (cell * cell)) : option (list (Q * Q)) :=
  match pts with
  | [] => Some []
  | (Num x, Num y) :: rest => option_map (cons (x, y)) (numeric rest)
  | _ :: _ => None
  end.

(** The gradient returned by [scipy.stats.linregress(x, y)]: the
    covariance of [x] and [y] over the variance of [x], both around the
    means; [nan] when an input is [nan] and when the variance is zero
    (0/0), which includes the empty and the one-point input. *)
Definition linregress (pts : list (cell * cell)) : cell :=
  match numeric pts with
  | None => NaN
  | Some qs =>
      let n := inject_Z (Py.len qs) in
      let xmean := (Qsum (map fst qs) / n)%Q in
      let ymean := (Qsum (map snd qs) / n)%Q in
      let ssxm := (Qsum (map (fun p => (fst p - xmean) * (fst p - xmean))%Q qs) / n)%Q in
      let ssxym := (Qsum (map (fun p => (fst p - xmean) * (snd p - ymean))%Q qs) / n)%Q in
      if Qeq_bool ssxm 0 then NaN else Num (ssxym / ssxm)
  end.

(** The ordinary-least-squares gradient by the direct formula
    [(n Sxy - Sx Sy) / (n Sxx - Sx Sx)]; undefined when the denominator
    vanishes. *)
Definition ols_gradient (qs : list (Q * Q)) : cell :=
  let n := inject_Z (Py.len qs) in
  let sx := Qsum (map fst qs) in
  let sy := Qsum (map snd qs) in
  let sxy := Qsum (map (fun p => fst p * snd p)%Q qs) in
  let sxx := Qsum (map (fun p => fst p * fst p)%Q qs) in
  let den := (n * sxx - sx * sx)%Q in
  if Qeq_bool den 0 then NaN else Num ((n * sxy - sx * sy) / den).

Definition ols (pts : list (cell * cell)) : cell :=
  match numeric pts with
  | None => NaN
  | Some qs => ols_gradient qs
  end.

(* ================================================================== *)
(** ** [CalculateSlope]: the regression over one profile *)

(** The body of the loop over [pts_array]: the slope at position [index]. *)
Definition slope_at (pts_array : list (cell * cell)) (slope_window_size : Z)
  (index : Z) : cell :=
  let slicer := (slope_window_size - 1) / 2 in
  let this_slice := Py.slice pts_array (index - slicer) (index + slicer + 1) in
  if Py.len this_slice =? slope_window_size
  then cabs (linregress this_slice)
  else NaN.

(** The array [slopes] once the loop over one profile has run. *)
Definition profile_slopes (dist elev : list cell) (slope_window_size : Z)
  : list cell :=
  let pts_array := combine dist elev in
  map (slope_at pts_array slope_window_size) (Py.range (Py.len pts_array)).

(** One pass of the loop over [ids] in [CalculateSlope]: the frame after
    [df.loc[df.id==id, 'slope'] = slopes]. *)
Definition slope_step (slope_window_size : Z) (df : DataFrame) (this_id : Z)
  : result DataFrame :=
  dist_col <- get_col df "distance_from_source" ;;
  ids <- get_id df ;;
  let mask := map (Z.eqb this_id) ids in
  let dist := take_mask mask dist_col in
  elev_col <- get_col df "elevation" ;;
  let elev := take_mask mask elev_col in
  let slopes := profile_slopes dist elev slope_window_size in
  Ok (loc_set df mask "slope" slopes).

(* ================================================================== *)
(** ** The object store *)

(** Python passes tables by reference.  A table is an object of the store,
    a variable holds its address, and [df.loc[...] = ...] writes to the
    object, whoever else holds its address. *)
Definition ref : Type := nat.

(** What a run of the clustering routine does, in order. *)
Inductive event : Type :=
| EvPrint
| EvResample
| EvPearson
| EvArccos
| EvLinkage (method : string)
| EvFcluster
| EvPlot.

Record world : Type := mkWorld {
  heap : list DataFrame;
  log : list event
}.

Definition M (A : Type) : Type := world -> result A * world.

Definition ret {A} (a : A) : M A := fun w => (Ok a, w).

Definition mbind {A B} (m : M A) (k : A -> M B) : M B :=
  fun w =>
    match m w with
    | (Ok a, w') => k a w'
    | (Raise e, w') => (Raise e, w')
    end.

Notation "x <~ m ;; k" := (mbind m (fun x => k))
  (at level 61, m at next level, right associativity).
Notation "m ;;; k" := (mbind m (fun _ => k))
  (at level 61, right associativity).

Definition lift {A} (r : result A) : M A := fun w => (r, w).

Definition emit (e : event) : M unit :=
  fun w => (Ok tt, mkWorld (heap w) (log w ++ [e])).

Definition load (r : ref) : M DataFrame :=
  fun w =>
    match nth_error (heap w) r with
    | Some df => (Ok df, w)
    | None => (Raise (NameError "dangling reference"), w)
    end.

Fixpoint set_nth {A} (l : list A) (n : nat) (x : A) : list A :=
  match l, n with
  | [], _ => []
  | _ :: r, O => x :: r
  | y :: r, S m => y :: set_nth r m x
  end.

Definition store (r : ref) (df : DataFrame) : M unit :=
  fun w => (Ok tt, mkWorld (set_nth (heap w) r df) (log w)).

Definition alloc (df : DataFrame) : M ref :=
  fun w => (Ok (List.length (heap w)), mkWorld (heap w ++ [df]) (log w)).

(** Read the object, compute, write the object back. *)
Definition update (r : ref) (f : DataFrame -> result DataFrame) : M unit :=
  df <~ load r ;;
  df' <~ lift (f df) ;;
  store r df'.

Fixpoint for_each {A} (xs : list A) (body : A -> M unit) : M unit :=
  match xs with
  | [] => ret tt
  | x :: rest => body x ;;; for_each rest body
  end.

(** [enumerate(xs)]. *)
Definition enumerate {A} (xs : list A) : list (Z * A) :=
  combine (Py.range (Py.len xs)) xs.

(* ================================================================== *)
(** ** [CalculateSlope] *)

Definition CalculateSlope (df : ref) (slope_window_size : Z) : M ref :=
  frame <~ load df ;;
  all_ids <~ lift (get_id frame) ;;
  let ids := unique all_ids in
  for_each ids (fun this_id => update df (fun d => slope_step slope_window_size d this_id)) ;;;
  emit EvPrint ;;;
  ret df.

(* ================================================================== *)
(** ** [ResampleProfiles] *)

Fixpoint foldM {A S} (f : S -> A -> result S) (xs : list A) (s : S)
  : result S :=
  match xs with
  | [] => Ok s
  | x :: rest => s' <- f s x ;; foldM f rest s'
  end.

(** A pandas [Series]: labels and values. *)
Definition Series : Type := (list Z * list cell)%type.

(** [series[k]] on an integer-labelled series looks the label up. *)
Fixpoint series_getitem_aux (labels : list Z) (vals : list cell) (k : Z)
  : result cell :=
  match labels, vals with
  | l :: ls, v :: vs => if l =? k then Ok v else series_getitem_aux ls vs k
  | _, _ => Raise (KeyError "label")
  end.

Definition series_getitem (s : Series) (k : Z) : result cell :=
  series_getitem_aux (fst s) (snd s) k.

(** [len(slopes) >= min_length] with
    [min_length = profile_len / math.sqrt(2)], decided exactly: the
    right-hand side is not positive, or the squares compare
    ([reaches_min_length_real] below relates it to the real numbers). *)
Definition reaches_min_length (n profile_len : Z) : bool :=
  (profile_len <=? 0) || (profile_len * profile_len <=? 2 * (n * n)).

(** The tuple [(distances, slopes, drainage_areas)] kept per profile. *)
Definition profile : Type := (list cell * list cell * Series)%type.

(** The state of the first loop: [profiles], [thinned_df], [final_sources]. *)
Definition selection : Type := (list profile * DataFrame * list Z)%type.

(** One pass of the loop over [source_ids]. *)
Definition select_step (df : DataFrame) (profile_len : Z)
  (acc : selection) (source : Z) : result selection :=
  let '(profiles, thinned_df, final_sources) := acc in
  ids <- get_id df ;;
  let this_df := select df (map (Z.eqb source) ids) in
  slope_col <- get_col this_df "slope" ;;
  let this_df := select this_df (map (fun c => negb (isnan c)) slope_col) in
  slopes <- get_col this_df "slope" ;;
  distances <- get_col this_df "distance_from_source" ;;
  areas <- get_col this_df "drainage_areas" ;;
  let drainage_areas : Series := (index this_df, areas) in
  if reaches_min_length (Py.len slopes) profile_len then
    Ok (profiles ++ [(distances, slopes, drainage_areas)],
        append thinned_df this_df,
        final_sources ++ [source])
  else Ok acc.

(** The first loop of [ResampleProfiles]. *)
Definition select_profiles (df : DataFrame) (profile_len : Z)
  : result selection :=
  let thinned_df := empty_frame in
  all_ids <- get_id df ;;
  let source_ids := unique all_ids in
  foldM (select_step df profile_len) source_ids ([], thinned_df, []).

(** [np.empty((rows, width))]; the content is unspecified, [nan] stands
    for it. *)
Definition np_empty (rows width : Z) : result (list (list cell)) :=
  if (rows <? 0) || (width <? 0)
  then Raise (ValueError "negative dimensions are not allowed")
  else Ok (repeat (repeat NaN (Z.to_nat width)) (Z.to_nat rows)).

(** [data[i] = row]: the row must have the width of the array, or one
    element, which is then repeated. *)
Definition set_row (data : list (list cell)) (width i : Z) (row : list cell)
  : result (list (list cell)) :=
  if (i <? 0) || (Py.len data <=? i) then Raise IndexError
  else if Py.len row =? width then Ok (set_nth data (Z.to_nat i) row)
  else if Py.len row =? 1 then
    Ok (set_nth data (Z.to_nat i)
          (repeat (hd NaN row) (Z.to_nat width)))
  else Raise (ValueError "could not broadcast input array").

(** The loop [for d in reg_dist] over one profile. *)
Fixpoint nearest_loop (p : profile) (reg_dist : list Z)
  (reg_slope reg_area : list cell) : result (list cell * list cell) :=
  match reg_dist with
  | [] => Ok (reg_slope, reg_area)
  | d :: rest =>
      let '(distances, slopes, drainage_areas) := p in
      idx <- find_nearest_idx distances (Num (inject_Z d)) ;;
      s <- Py.getitem slopes idx ;;
      a <- series_getitem drainage_areas idx ;;
      nearest_loop p rest (reg_slope ++ [s]) (reg_area ++ [a])
  end.

(** One pass of the loop over [profiles].  The three lists are emptied
    first, [reg_dist] among them, and the name [reg_df] is bound nowhere
    in the script. *)
Definition resample_step (profile_len : Z) (data : list (list cell))
  (ip : Z * profile) : result (list (list cell)) :=
  let '(i, p) := ip in
  let reg_slope : list cell := [] in
  let reg_dist : list Z := [] in
  let reg_area : list cell := [] in
  filled <- nearest_loop p reg_dist reg_slope reg_area ;;
  let '(reg_slope, reg_area) := filled in
  data <- set_row data profile_len i reg_slope ;;
  _ <- (Raise (NameError "reg_df") : result unit) ;;
  Ok data.

(** [ResampleProfiles] on the table the argument refers to. *)
Definition resample (df : DataFrame) (profile_len step : Z)
  : result (DataFrame * list (list cell) * list Z) :=
  reg_dist <- Py.arange 0 profile_len step ;;
  sel <- select_profiles df profile_len ;;
  let '(profiles, thinned_df, final_sources) := sel in
  let n_profiles := Py.len profiles in
  data <- np_empty n_profiles profile_len ;;
  data <- foldM (resample_step profile_len) (enumerate profiles) data ;;
  Ok (thinned_df, data, final_sources).

(** [ResampleProfiles]: the input is only read.  The tables built on the
    way are reachable from the function alone and are kept as values; the
    one returned, [thinned_df], becomes a new object of the store. *)
Definition ResampleProfiles (df : ref) (profile_len step : Z)
  : M (ref * list (list cell) * list Z) :=
  emit EvResample ;;;
  frame <~ load df ;;
  out <~ lift (resample frame profile_len step) ;;
  let '(thinned, data, final_sources) := out in
  thinned_df <~ alloc thinned ;;
  ret (thinned_df, data, final_sources).

(* ================================================================== *)
(** ** [ClusterProfiles] *)

(** An angle, or [nan]. *)
Definition angle : Type := option R.

(** [np.arccos] on one float: [nan] outside [-1, 1]. *)
Definition np_arccos (c : cell) : angle :=
  match c with
  | NaN => None
  | Num q =>
      if Qle_bool (-1) q && Qle_bool q 1 then Some (acos (Q2R q)) else None
  end.

(** The functions of [CorrCoef] and [scipy.cluster.hierarchy] the routine
    calls; they are not part of this repository. *)
Record Externals : Type := mkExternals {
  tree : Type;
  Pearson : list (list cell) -> result (list cell);
  linkage : list angle -> string -> result tree;
  fcluster : tree -> angle -> result (list Z)
}.

(** [cl.max()]. *)
Definition array_max (cl : list Z) : result Z :=
  match cl with
  | [] => Raise (ValueError "zero-size array to reduction operation maximum")
  | c :: rest => Ok (fold_left Z.max rest c)
  end.

(** One pass of the last loop:
    [thinned_df.loc[thinned_df.id==id, 'cluster_id'] = cl[i]]. *)
Definition cluster_step (cl : list Z) (i_id : Z * Z) (thinned : DataFrame)
  : result DataFrame :=
  let '(i, this_id) := i_id in
  c <- Py.getitem cl i ;;
  ids <- get_id thinned ;;
  Ok (loc_set_scalar thinned (map (Z.eqb this_id) ids) "cluster_id"
        (Num (inject_Z c))).

(** [dd = np.arccos(cc)], element by element. *)
Definition arccos_distances (cc : list cell) : list angle :=
  map np_arccos cc.

(** The end of [ClusterProfiles], from [source_ids = ...] on: the labels
    are written into the table [thinned_df] refers to, and that reference
    is returned. *)
Definition assign_clusters (thinned_df : ref) (cl : list Z) : M ref :=
  thinned <~ load thinned_df ;;
  all_ids <~ lift (get_id thinned) ;;
  let source_ids := unique all_ids in
  emit EvPlot ;;;
  for_each (enumerate source_ids)
    (fun i_id => update thinned_df (cluster_step cl i_id)) ;;;
  ret thinned_df.

(** [ClusterProfiles] once the resampling has returned. *)
Definition cluster_resampled (X : Externals)
  (out : ref * list (list cell) * list Z) (min_corr : cell) (method : string)
  : M ref :=
  let '(thinned_df, data, final_sources) := out in
  emit EvPearson ;;;
  cc <~ lift (Pearson X data) ;;
  emit EvArccos ;;;
  let dd := arccos_distances cc in
  emit (EvLinkage method) ;;;
  ln <~ lift (linkage X dd method) ;;
  let thr := np_arccos min_corr in
  emit EvFcluster ;;;
  cl <~ lift (fcluster X ln thr) ;;
  top <~ lift (array_max cl) ;;
  emit EvPrint ;;;
  emit EvPrint ;;;
  assign_clusters thinned_df cl.

Definition ClusterProfiles (X : Externals) (df : ref)
  (profile_len step : Z) (min_corr : cell) (method : string) : M ref :=
  emit EvPrint ;;;
  out <~ ResampleProfiles df profile_len step ;;
  cluster_resampled X out min_corr method.

(* ================================================================== *)
(** ** Statements about the pipeline *)

(** A tie between two neighbouring samples resolved to the lower index. *)
Definition tie_goes_lower (array : list Q) (value : Q) : Prop :=
  forall (j : nat) (x y : Q),
    nth_error array j = Some x ->
    nth_error array (S j) = Some y ->
    (value - x == y - value)%Q ->
    find_nearest_idx (floats_of array) (Num value) = Ok (Z.of_nat j).

(** The pairs of a profile at the positions [lo] to [hi], both included. *)
Definition window_pairs (pts : list (cell * cell)) (lo hi : Z)
  : list (cell * cell) :=
  firstn (Z.to_nat (hi - lo + 1)) (skipn (Z.to_nat lo) pts).

(** What a world looks like from everywhere but one address. *)
Definition same_but (r : ref) (w w' : world) : Prop :=
  List.length (heap w') = List.length (heap w)
  /\ forall r', r' <> r -> nth_error (heap w') r' = nth_error (heap w) r'.

(** Every column of a table has one entry per row. *)
Definition rectangular (df : DataFrame) : Prop :=
  (forall ids, id df = Some ids -> List.length ids = List.length (index df))
  /\ Forall (fun kv => List.length (snd kv) = List.length (index df))
            (floats df).

(** Two tables that differ at most in the float column [name]. *)
Definition same_but_col (name : string) (d d' : DataFrame) : Prop :=
  index d' = index d
  /\ id d' = id d
  /\ forall k, String.eqb k name = false ->
       assoc k (floats d') = assoc k (floats d).

(** The rows of source [a]: [df['id'] == a]. *)
Definition id_mask (ids : list Z) (a : Z) : list bool := map (Z.eqb a) ids.

(** The slopes of the profile of source [a], from the distance and
    elevation columns of the table. *)
Definition source_slopes (W : Z) (ids : list Z) (dcol ecol : list cell)
  (a : Z) : list cell :=
  profile_slopes (take_mask (id_mask ids a) dcol)
                 (take_mask (id_mask ids a) ecol) W.

(** What the loop over the sources of [CalculateSlope] keeps true of the
    table. *)
Definition slope_inv (ids : list Z) (dcol ecol : list cell) (d : DataFrame)
  : Prop :=
  id d = Some ids
  /\ assoc "distance_from_source" (floats d) = Some dcol
  /\ assoc "elevation" (floats d) = Some ecol
  /\ List.length (col_or_nan d "slope") = List.length ids.

(** The array [pts_array] of source [a]: its (distance, elevation) pairs. *)
Definition pts_of (frame : DataFrame) (a : Z) : list (cell * cell) :=
  match id frame,
        assoc "distance_from_source" (floats frame),
        assoc "elevation" (floats frame) with
  | Some ids, Some dcol, Some ecol =>
      combine (take_mask (id_mask ids a) dcol) (take_mask (id_mask ids a) ecol)
  | _, _, _ => []
  end.

(** The slopes the rows of source [a] hold in the table at [df] once
    [CalculateSlope df W] has run in [w]. *)
Definition slopes_written (w : world) (df : ref) (W : Z) (a : Z)
  : option (list cell) :=
  match nth_error (heap (snd (CalculateSlope df W w))) df with
  | Some frame' =>
      match id frame', assoc "slope" (floats frame') with
      | Some ids, Some sl => Some (take_mask (id_mask ids a) sl)
      | _, _ => None
      end
  | None => None
  end.

(** Every node whose window [i - (W-1)/2, i + (W-1)/2] lies inside the
    profile gets the magnitude of the least-squares gradient of that
    window. *)
Definition interior_slopes_are_ols (w : world) (df : ref) (W : Z) : Prop :=
  forall (frame : DataFrame) (ids : list Z) (a i : Z),
    nth_error (heap w) df = Some frame ->
    id frame = Some ids ->
    In a ids ->
    0 <= i - (W - 1) / 2 ->
    i + (W - 1) / 2 <= Py.len (pts_of frame a) - 1 ->
    exists sl v,
      slopes_written w df W a = Some sl
      /\ nth_error sl (Z.to_nat i) = Some v
      /\ cell_same v
           (cabs (ols (window_pairs (pts_of frame a)
                         (i - (W - 1) / 2) (i + (W - 1) / 2)))).

(** A correlation that is a number of [-1, 1]. *)
Definition in_unit_range (c : cell) : Prop :=
  match c with
  | NaN => False
  | Num q => (-1 <= q <= 1)%Q
  end.

(** Every dissimilarity computed from the correlations [cc] is defined and
    lies in [0, pi]. *)
Definition distances_defined (cc : list cell) : Prop :=
  Forall (fun d : angle => exists r : R, d = Some r /\ (0 <= r <= PI)%R)
         (arccos_distances cc).

(** The linkage methods of [scipy.cluster.hierarchy.linkage]. *)
Definition linkage_methods : list string :=
  ["single"; "complete"; "average"; "weighted"; "centroid"; "median"; "ward"]%string.



(** Libraries standing in for [CorrCoef] and [scipy]: no correlations for
    no profiles, a linkage that rejects a method name it does not know, as
    scipy does, and no labels for no leaves. *)
Definition checking_libraries : Externals :=
  mkExternals
    (fun data => Ok [])
    (fun dd method =>
       if existsb (String.eqb method) linkage_methods
       then Ok tt
       else Raise (ValueError "Invalid method"))
    (fun ln thr => Ok []).


(** The number of non-missing slope samples of a source. *)
Definition valid_samples (frame : DataFrame) (source : Z) : Z :=
  match id frame, assoc "slope" (floats frame) with
  | Some ids, Some sl =>
      Py.len (filter (fun p => (source =? fst p) && negb (isnan (snd p)))
                     (combine ids sl))
  | _, _ => 0
  end.

(** The rows of a source that have a slope: [this_df] in the first loop
    of [ResampleProfiles]. *)
Definition valid_rows (frame : DataFrame) (source : Z) : DataFrame :=
  match id frame with
  | Some ids =>
      let this_df := select frame (map (Z.eqb source) ids) in
      match assoc "slope" (floats this_df) with
      | Some sc => select this_df (map (fun c => negb (isnan c)) sc)
      | None => this_df
      end
  | None => frame
  end.

(** The test of the first loop on a source. *)
Definition qualifies (frame : DataFrame) (profile_len : Z) (source : Z)
  : bool :=
  reaches_min_length (valid_samples frame source) profile_len.

(** The ids of the rows of a table, none for a table without the column. *)
Definition id_column (d : DataFrame) : list Z :=
  match id d with
  | Some ids => ids
  | None => []
  end.

(* ================================================================== *)
(** ** Sample tables *)

(** One source, seven nodes on the straight line of gradient -2. *)
Definition line_frame : DataFrame :=
  mkDF [0; 1; 2; 3; 4; 5; 6]
       (Some [7; 7; 7; 7; 7; 7; 7])
       [("distance_from_source"%string, floats_of [0; 1; 2; 3; 4; 5; 6]%Q);
        ("elevation"%string, floats_of [20; 18; 16; 14; 12; 10; 8]%Q)].

Definition line_world : world := mkWorld [line_frame] [].

(** Two sources with their slopes: source 7 has five valid samples,
    source 9 has one. *)
Definition survey_frame : DataFrame :=
  mkDF [0; 1; 2; 3; 4; 5; 6; 7; 8; 9]
       (Some [7; 7; 7; 7; 7; 7; 7; 9; 9; 9])
       [("distance_from_source"%string,
         floats_of [0; 1; 2; 3; 4; 5; 6; 0; 1; 2]%Q);
        ("elevation"%string,
         floats_of [20; 18; 16; 14; 12; 10; 8; 5; 4; 3]%Q);
        ("drainage_areas"%string,
         floats_of [1; 2; 3; 4; 5; 6; 7; 1; 2; 3]%Q);
        ("slope"%string,
         [NaN; Num 2; Num 2; Num 2; Num 2; Num 2; NaN; NaN; Num 1; NaN])].

Definition survey_world : world := mkWorld [survey_frame] [].

(** The same table with the area column under the name the other scripts
    of the repository use. *)
Definition survey_frame_area : DataFrame :=
  mkDF (index survey_frame) (id survey_frame)
       (map (fun kv => (if String.eqb (fst kv) "drainage_areas"
                        then "drainage_area"%string else fst kv, snd kv))
            (floats survey_frame)).

(** What the first loop of [ResampleProfiles] makes of [survey_frame] for
    [profile_len = 1]: both sources are retained. *)
Definition survey_profiles : list profile :=
  Eval vm_compute in
    match select_profiles survey_frame 1 with
    | Ok (profiles, _, _) => profiles
    | Raise _ => []
    end.

Definition survey_thinned : DataFrame :=
  Eval vm_compute in
    match select_profiles survey_frame 1 with
    | Ok (_, thinned, _) => thinned
    | Raise _ => empty_frame
    end.

(** Source 5 has no valid slope, source 7 has two. *)
Definition gap_frame : DataFrame :=
  mkDF [0; 1; 2; 3]
       (Some [5; 5; 7; 7])
       [("distance_from_source"%string, floats_of [0; 1; 0; 1]%Q);
        ("elevation"%string, floats_of [9; 8; 7; 6]%Q);
        ("drainage_areas"%string, floats_of [1; 2; 1; 2]%Q);
        ("slope"%string, [NaN; NaN; Num 1; Num 1])].

Definition gap_thinned : DataFrame :=
  Eval vm_compute in
    match select_profiles gap_frame 0 with
    | Ok (_, thinned, _) => thinned
    | Raise _ => empty_frame
    end.

(* ================================================================== *)
(** A table without the column ['elevation']. *)
Definition bare_frame : DataFrame :=
  mkDF [0; 1] (Some [7; 7])
       [("distance_from_source"%string, floats_of [0; 1]%Q)].

Definition bare_world : world := mkWorld [bare_frame] [].

(** ** Further statements *)

(** A slope that is missing or not negative. *)
Definition nonneg_or_missing (c : cell) : Prop :=
  match c with
  | NaN => True
  | Num q => (0 <= q)%Q
  end.

(** ** [PlotProfilesByCluster] *)

(** [PlotProfilesByCluster] from the table [pd.read_csv] returned to the
    table [cluster_df]: the slopes, then the clustering, which is called
    with [step=1] whatever step the function was given. *)
Definition PlotProfilesByCluster_cluster_df (X : Externals) (df : ref)
  (slope_window_size profile_len step : Z) (min_corr : cell)
  (method : string) : M ref :=
  df <~ CalculateSlope df slope_window_size ;;
  ClusterProfiles X df profile_len 1 min_corr method.

(* ================================================================== *)
(** * Properties *)

(** ** Python sequences *)

Lemma len_nonneg {A} (l : list A) : 0 <= Py.len l.
Proof. unfold Py.len. lia. Qed.

Lemma len_cons {A} (x : A) (l : list A) : Py.len (x :: l) = 1 + Py.len l.
Proof. unfold Py.len. simpl List.length. lia. Qed.

Lemma len_map {A B} (f : A -> B) (l : list A) : Py.len (map f l) = Py.len l.
Proof. unfold Py.len. now rewrite length_map. Qed.

Lemma getitem_nth {A} (l : list A) (n : nat) (x : A) :
  nth_error l n = Some x -> Py.getitem l (Z.of_nat n) = Ok x.
Proof.
  intro H. unfold Py.getitem.
  assert (n < List.length l)%nat by (apply nth_error_Some; congruence).
  destruct (Z.ltb_spec (Z.of_nat n) 0); [lia|].
  unfold Py.len.
  destruct (Z.leb_spec 0 (Z.of_nat n)); [|lia].
  destruct (Z.ltb_spec (Z.of_nat n) (Z.of_nat (List.length l))); [|lia].
  simpl. now rewrite Nat2Z.id, H.
Qed.

Lemma getitem_in_range {A} (l : list A) (i : Z) :
  0 <= i < Py.len l -> exists x, Py.getitem l i = Ok x.
Proof.
  intros [H0 H1]. unfold Py.len in H1.
  destruct (nth_error l (Z.to_nat i)) as [x|] eqn:E.
  - exists x. rewrite <- (Z2Nat.id i) by assumption. now apply getitem_nth.
  - apply nth_error_None in E. lia.
Qed.

Lemma slice_inside {A} (l : list A) (lo hi : Z) :
  0 <= lo -> lo <= hi -> hi <= Py.len l ->
  Py.slice l lo hi = firstn (Z.to_nat (hi - lo)) (skipn (Z.to_nat lo) l)
  /\ Py.len (Py.slice l lo hi) = hi - lo.
Proof.
  intros H0 H1 H2. unfold Py.slice, Py.clamp.
  destruct (Z.ltb_spec lo 0); [lia|].
  destruct (Z.ltb_spec hi 0); [lia|].
  rewrite !Z.min_l by lia. split; [reflexivity|].
  unfold Py.len in *. rewrite length_firstn, length_skipn. lia.
Qed.

(** The length of a slice is what lies between its clamped bounds. *)
Lemma slice_len {A} (l : list A) (start stop : Z) :
  Py.len (Py.slice l start stop) =
  Z.max 0 (Py.clamp (Py.len l) stop - Py.clamp (Py.len l) start).
Proof.
  unfold Py.slice.
  set (lo := Py.clamp (Py.len l) start). set (hi := Py.clamp (Py.len l) stop).
  assert (Hlo : 0 <= lo <= Py.len l).
  { subst lo. unfold Py.clamp. pose proof (len_nonneg l).
    destruct (Z.ltb_spec start 0); lia. }
  assert (Hhi : 0 <= hi <= Py.len l).
  { subst hi. unfold Py.clamp. pose proof (len_nonneg l).
    destruct (Z.ltb_spec stop 0); lia. }
  clearbody lo hi. unfold Py.len in *.
  rewrite length_firstn, length_skipn.
  destruct (Z.le_gt_cases lo hi).
  - rewrite Nat.min_l by lia. lia.
  - replace (Z.to_nat (hi - lo)) with 0%nat by lia. simpl. lia.
Qed.

Lemma range_length (n : Z) : List.length (Py.range n) = Z.to_nat n.
Proof. unfold Py.range. now rewrite length_map, length_seq. Qed.

Lemma range_nth (n : Z) (k : nat) :
  (k < Z.to_nat n)%nat -> nth_error (Py.range n) k = Some (Z.of_nat k).
Proof.
  intro H. unfold Py.range. rewrite nth_error_map.
  rewrite nth_error_seq.
  destruct (Nat.ltb_spec k (Z.to_nat n)); [reflexivity | lia].
Qed.

(** ** [find_nearest_idx] *)

Lemma Qlt_bool_iff (x y : Q) : Qlt_bool x y = true <-> (x < y)%Q.
Proof.
  unfold Qlt_bool. rewrite negb_true_iff. split; intro H.
  - apply Qnot_le_lt. intro L. apply Qle_bool_iff in L. congruence.
  - destruct (Qle_bool y x) eqn:E; [|reflexivity].
    apply Qle_bool_iff in E. exfalso. exact (Qlt_not_le _ _ H E).
Qed.

Lemma searchsorted_range (array : list cell) (value : cell) :
  0 <= searchsorted_left array value <= Py.len array.
Proof.
  induction array as [|x rest IH]; cbn [searchsorted_left].
  - unfold Py.len. simpl. lia.
  - rewrite len_cons. destruct (np_lt x value); lia.
Qed.

(** The index returned always exists in a non-empty array, and no access
    of the function is out of range. *)
Lemma find_nearest_idx_in_range (array : list cell) (value : cell) :
  array <> [] ->
  exists i, find_nearest_idx array value = Ok i /\ 0 <= i <= Py.len array - 1.
Proof.
  intro Hne. unfold find_nearest_idx.
  pose proof (searchsorted_range array value) as Hr.
  set (idx := searchsorted_left array value) in *.
  assert (Hlen : 0 < Py.len array).
  { destruct array; [congruence|]. rewrite len_cons. pose proof (len_nonneg array). lia. }
  destruct (Z.ltb_spec 0 idx) as [Hpos|Hz].
  - destruct (Z.eqb_spec idx (Py.len array)) as [He|Hn].
    + exists (idx - 1). split; [reflexivity | lia].
    + destruct (@getitem_in_range _ array (idx - 1)) as [b Hb]; [lia|].
      destruct (@getitem_in_range _ array idx) as [a Ha]; [lia|].
      rewrite Hb, Ha. simpl.
      destruct (cell_ltb _ _); eexists; (split; [reflexivity | lia]).
  - exists idx. split; [reflexivity | lia].
Qed.

Example find_nearest_idx_ex1 :
  find_nearest_idx (floats_of [0; 2; 4]%Q) (Num 3) = Ok 2.
Proof. reflexivity. Qed.

Example find_nearest_idx_ex2 :
  find_nearest_idx (floats_of [0; 2; 4]%Q) (Num 9) = Ok 2.
Proof. reflexivity. Qed.

Example find_nearest_idx_ex3 :
  find_nearest_idx (floats_of [0; 2; 4]%Q) (Num (-3 # 1)) = Ok 0.
Proof. reflexivity. Qed.

Example find_nearest_idx_ex4 :
  find_nearest_idx (floats_of [0; 2; 4]%Q) (Num (5 # 2)) = Ok 1.
Proof. reflexivity. Qed.

Lemma sorted_nth_le (l : list Q) :
  StronglySorted Qle l ->
  forall (k j : nat) (a b : Q),
    (k <= j)%nat -> nth_error l k = Some a -> nth_error l j = Some b ->
    (a <= b)%Q.
Proof.
  induction 1 as [|h t Ht IH Hall]; intros k j a b Hkj Ha Hb.
  - destruct k; discriminate.
  - destruct k as [|k], j as [|j]; simpl in *.
    + injection Ha as <-. injection Hb as <-. apply Qle_refl.
    + injection Ha as <-. rewrite Forall_forall in Hall.
      apply Hall. eapply nth_error_In; eauto.
    + lia.
    + apply (IH k j a b); [lia | exact Ha | exact Hb].
Qed.

(** On numbers, the insertion point is where the elements stop being
    below the value. *)
Lemma searchsorted_boundary (array : list Q) (value : Q) :
  forall (j : nat) (y : Q),
    (forall k a, (k <= j)%nat -> nth_error array k = Some a -> (a < value)%Q) ->
    nth_error array (S j) = Some y -> (value <= y)%Q ->
    searchsorted_left (floats_of array) (Num value) = Z.of_nat (S j).
Proof.
  revert value. induction array as [|h t IH]; intros value j y Hlow Hy Hle.
  - discriminate.
  - cbn [floats_of map searchsorted_left np_lt].
    assert (Hh : Qlt_bool h value = true).
    { apply Qlt_bool_iff. apply (Hlow 0%nat); [lia | reflexivity]. }
    rewrite Hh.
    destruct j as [|j].
    + destruct t as [|h' t']; [discriminate|]. simpl in Hy. injection Hy as ->.
      cbn [map searchsorted_left np_lt].
      assert (Hn : Qlt_bool y value = false).
      { destruct (Qlt_bool y value) eqn:E; [|reflexivity].
        apply Qlt_bool_iff in E. exfalso. exact (Qlt_not_le _ _ E Hle). }
      rewrite Hn. reflexivity.
    + fold (floats_of t). rewrite (IH value j y); [lia | | exact Hy | exact Hle].
      intros k a Hk Ha. apply (Hlow (S k)); [lia | exact Ha].
Qed.

Lemma floats_of_nth (array : list Q) (n : nat) (x : Q) :
  nth_error array n = Some x -> nth_error (floats_of array) n = Some (Num x).
Proof. intro H. unfold floats_of. now rewrite nth_error_map, H. Qed.

(** C5 (as the code has it): for a sorted distance array and a grid value
    exactly half-way between two neighbouring distinct samples,
    [find_nearest_idx] returns the higher of the two indices: the lower
    one is taken only when it is strictly closer. *)
Theorem find_nearest_idx_tie_higher :
  forall (array : list Q) (value : Q) (j : nat) (x y : Q),
    StronglySorted Qle array ->
    nth_error array j = Some x ->
    nth_error array (S j) = Some y ->
    (x < y)%Q ->
    (value - x == y - value)%Q ->
    find_nearest_idx (floats_of array) (Num value) = Ok (Z.of_nat (S j)).
Proof.
  intros array value j x y Hs Hx Hy Hxy Hmid.
  assert (Hxv : (x < value)%Q) by lra.
  assert (Hvy : (value <= y)%Q) by lra.
  assert (Hidx : searchsorted_left (floats_of array) (Num value) = Z.of_nat (S j)).
  { apply searchsorted_boundary with (y := y); [|exact Hy|exact Hvy].
    intros k a Hk Ha.
    apply Qle_lt_trans with (y := x); [|exact Hxv].
    exact (sorted_nth_le Hs Hk Ha Hx). }
  unfold find_nearest_idx. rewrite Hidx.
  assert (Hlen : (S j < List.length array)%nat)
    by (apply nth_error_Some; congruence).
  destruct (Z.ltb_spec 0 (Z.of_nat (S j))); [|lia].
  destruct (Z.eqb_spec (Z.of_nat (S j)) (Py.len (floats_of array))) as [E|_].
  { unfold floats_of in E. rewrite len_map in E. unfold Py.len in E. lia. }
  replace (Z.of_nat (S j) - 1) with (Z.of_nat j) by lia.
  rewrite (getitem_nth _ _ (floats_of_nth _ _ Hx)).
  rewrite (getitem_nth _ _ (floats_of_nth _ _ Hy)).
  cbn [bind csub fabs cabs cell_ltb].
  assert (Hn : Qlt_bool (Qabs (value - x)) (Qabs (value - y)) = false).
  { destruct (Qlt_bool _ _) eqn:E; [|reflexivity].
    apply Qlt_bool_iff in E. exfalso.
    rewrite (Qabs_Qminus value y) in E.
    rewrite (Qabs_pos (value - x)) in E by lra.
    rewrite (Qabs_pos (y - value)) in E by lra. lra. }
  rewrite Hn. reflexivity.
Qed.

Lemma sorted_0_2 : StronglySorted Qle [0; 2]%Q.
Proof.
  repeat constructor. unfold Qle. simpl. lia.
Qed.

Lemma find_nearest_idx_tie_higher_witness :
  find_nearest_idx (floats_of [0; 2]%Q) (Num 1) = Ok 1.
Proof.
  apply (@find_nearest_idx_tie_higher [0; 2]%Q 1%Q 0%nat 0%Q 2%Q).
  - exact sorted_0_2.
  - reflexivity.
  - reflexivity.
  - reflexivity.
  - reflexivity.
Defined.

(** C5 as stated fails: in the sorted array [0, 2] the value 1 is
    half-way between the two samples and index 1, not 0, is returned. *)
Lemma find_nearest_idx_tie_counterexample :
  StronglySorted Qle [0; 2]%Q /\ ~ tie_goes_lower [0; 2]%Q 1%Q.
Proof.
  split; [exact sorted_0_2|].
  intro H. specialize (H 0%nat 0%Q 2%Q eq_refl eq_refl).
  assert (E : (1 - 0 == 2 - 1)%Q) by reflexivity.
  specialize (H E). vm_compute in H. discriminate.
Qed.

(** C10: on a non-empty sorted array [find_nearest_idx] returns an index
    between 0 and the last one, whatever the value, also below the first
    and above the last element; on the empty array it returns 0, an index
    the array does not have. *)
Theorem find_nearest_idx_bounds :
  forall (array : list Q) (value : Q),
    StronglySorted Qle array ->
    (array <> [] ->
     exists i, find_nearest_idx (floats_of array) (Num value) = Ok i
               /\ 0 <= i <= Py.len array - 1)
    /\ (array = [] ->
        find_nearest_idx (floats_of array) (Num value) = Ok 0
        /\ Py.getitem (floats_of array) 0 = Raise IndexError).
Proof.
  intros array value _. split.
  - intro Hne.
    destruct (@find_nearest_idx_in_range (floats_of array) (Num value))
      as [i [Hi Hb]].
    + destruct array; [congruence | discriminate].
    + exists i. split; [exact Hi|].
      unfold floats_of in Hb. now rewrite len_map in Hb.
  - intros ->. split; reflexivity.
Qed.

Lemma find_nearest_idx_bounds_witness :
  (exists i, find_nearest_idx (floats_of [0; 2]%Q) (Num 9) = Ok i
             /\ 0 <= i <= Py.len [0; 2]%Q - 1).
Proof.
  apply (proj1 (@find_nearest_idx_bounds [0; 2]%Q 9%Q sorted_0_2)).
  discriminate.
Defined.

(** ** Linear regression: [linregress] computes the least-squares gradient *)

Section Sums.

Variables f g : Q * Q -> Q.

Lemma Qsum_centred (qs : list (Q * Q)) (m m' : Q) :
  (Qsum (map (fun p => (f p - m) * (g p - m')) qs)
   == Qsum (map (fun p => f p * g p) qs)
      - m' * Qsum (map f qs) - m * Qsum (map g qs)
      + inject_Z (Py.len qs) * m * m')%Q.
Proof.
  induction qs as [|p rest IH].
  - unfold Py.len. simpl. ring.
  - rewrite len_cons, inject_Z_plus.
    cbn [map Qsum fold_right]. fold (Qsum (map (fun p => (f p - m) * (g p - m')) rest))%Q.
    fold (Qsum (map (fun p => f p * g p) rest))%Q.
    fold (Qsum (map f rest)). fold (Qsum (map g rest)).
    rewrite IH. change (inject_Z 1) with 1%Q. ring.
Qed.

End Sums.

Lemma len_pos_inject {A} (l : list A) :
  l <> [] -> ~ (inject_Z (Py.len l) == 0)%Q.
Proof.
  intros Hne H. destruct l as [|x r]; [congruence|].
  rewrite len_cons in H. pose proof (len_nonneg r).
  unfold Qeq, inject_Z in H. cbn [Qnum Qden] in H. lia.
Qed.

(** The gradient of [linregress] is the one of the direct formula, and the
    two are undefined on the same inputs. *)
Lemma linregress_is_ols (pts : list (cell * cell)) :
  cell_same (linregress pts) (ols pts).
Proof.
  unfold linregress, ols. destruct (numeric pts) as [qs|]; [|exact I].
  unfold ols_gradient.
  assert (Hcase : qs = [] \/ qs <> [])
    by (destruct qs; [left; reflexivity | right; discriminate]).
  destruct Hcase as [-> | Hne]; [exact I|].
  pose proof (len_pos_inject Hne) as Hn.
  pose proof (Qsum_centred fst fst qs (Qsum (map fst qs) / inject_Z (Py.len qs))
                (Qsum (map fst qs) / inject_Z (Py.len qs))) as Hxx.
  pose proof (Qsum_centred fst snd qs (Qsum (map fst qs) / inject_Z (Py.len qs))
                (Qsum (map snd qs) / inject_Z (Py.len qs))) as Hxy.
  cbv zeta.
  set (n := inject_Z (Py.len qs)) in *.
  set (sx := Qsum (map fst qs)) in *. set (sy := Qsum (map snd qs)) in *.
  set (sxy := Qsum (map (fun p => fst p * snd p)%Q qs)) in *.
  set (sxx := Qsum (map (fun p => fst p * fst p)%Q qs)) in *.
  set (cxx := Qsum (map (fun p => (fst p - sx / n) * (fst p - sx / n))%Q qs)) in *.
  set (cxy := Qsum (map (fun p => (fst p - sx / n) * (snd p - sy / n))%Q qs)) in *.
  clearbody n sx sy sxy sxx cxx cxy.
  assert (Exx : (cxx / n == (n * sxx - sx * sx) / (n * n))%Q).
  { rewrite Hxx. field. exact Hn. }
  assert (Exy : (cxy / n == (n * sxy - sx * sy) / (n * n))%Q).
  { rewrite Hxy. field. exact Hn. }
  destruct (Qeq_bool (cxx / n) 0) eqn:E1;
    destruct (Qeq_bool (n * sxx - sx * sx) 0) eqn:E2; simpl.
  - exact I.
  - apply Qeq_bool_iff in E1. apply Qeq_bool_neq in E2. apply E2.
    rewrite Exx in E1.
    assert (H : ((n * sxx - sx * sx) == ((n * sxx - sx * sx) / (n * n)) * (n * n))%Q)
      by (field; exact Hn).
    rewrite H, E1. ring.
  - apply Qeq_bool_neq in E1. apply Qeq_bool_iff in E2. apply E1.
    rewrite Exx, E2. field. exact Hn.
  - apply Qeq_bool_neq in E2.
    rewrite Exx, Exy. field. split; assumption.
Qed.

Lemma cabs_same (a b : cell) : cell_same a b -> cell_same (cabs a) (cabs b).
Proof.
  destruct a, b; simpl; try tauto. intro H. now rewrite H.
Qed.

Example linregress_line :
  cell_same (linregress [(Num 0, Num 1); (Num 1, Num 3); (Num 2, Num 5)]) (Num 2).
Proof. vm_compute. reflexivity. Qed.

Example linregress_one_point : linregress [(Num 4, Num 7)] = NaN.
Proof. reflexivity. Qed.

(** ** [CalculateSlope]: one profile *)

Lemma profile_slopes_length (dist elev : list cell) (W : Z) :
  List.length (profile_slopes dist elev W) = List.length (combine dist elev).
Proof.
  unfold profile_slopes. rewrite length_map, range_length.
  unfold Py.len. now rewrite Nat2Z.id.
Qed.

Lemma profile_slopes_nth (dist elev : list cell) (W i : Z) :
  0 <= i < Py.len (combine dist elev) ->
  nth_error (profile_slopes dist elev W) (Z.to_nat i)
  = Some (slope_at (combine dist elev) W i).
Proof.
  intros [H0 H1]. unfold profile_slopes.
  rewrite nth_error_map, range_nth by lia.
  simpl. now rewrite Z2Nat.id.
Qed.

(** A slice is never longer than the array. *)
Lemma slice_len_le {A} (l : list A) (start stop : Z) :
  Py.len (Py.slice l start stop) <= Py.len l.
Proof.
  rewrite slice_len. pose proof (len_nonneg l). unfold Py.clamp.
  destruct (Z.ltb_spec stop 0); destruct (Z.ltb_spec start 0); lia.
Qed.

(** Near either end the slice is shorter than the window. *)
Lemma slope_at_edge (pts : list (cell * cell)) (W i : Z) :
  0 <= i < Py.len pts ->
  i - (W - 1) / 2 < 0 \/ Py.len pts - 1 < i + (W - 1) / 2 ->
  slope_at pts W i = NaN.
Proof.
  intros Hi Hedge. unfold slope_at.
  destruct (Z.eqb_spec
              (Py.len (Py.slice pts (i - (W - 1) / 2) (i + (W - 1) / 2 + 1))) W)
    as [E|_]; [exfalso | reflexivity].
  rewrite slice_len in E. unfold Py.clamp in E.
  assert (Hs : 2 * ((W - 1) / 2) <= W - 1)
    by (apply Z.mul_div_le; lia).
  set (s := (W - 1) / 2) in *. clearbody s.
  destruct (Z.ltb_spec (i - s) 0); destruct (Z.ltb_spec (i + s + 1) 0); lia.
Qed.

Lemma slope_at_short (pts : list (cell * cell)) (W i : Z) :
  Py.len pts < W -> slope_at pts W i = NaN.
Proof.
  intro H. unfold slope_at.
  destruct (Z.eqb_spec
              (Py.len (Py.slice pts (i - (W - 1) / 2) (i + (W - 1) / 2 + 1))) W)
    as [E|_]; [exfalso | reflexivity].
  pose proof (slice_len_le pts (i - (W - 1) / 2) (i + (W - 1) / 2 + 1)). lia.
Qed.

Lemma odd_half (W : Z) : Z.odd W = true -> W = 2 * ((W - 1) / 2) + 1.
Proof.
  intro H. rewrite (Zodd_div2 W) at 1 by (now apply Zodd_bool_iff).
  rewrite Zdiv2_div.
  assert (W / 2 = (W - 1) / 2); [|lia].
  apply Zodd_bool_iff in H. apply Zodd_ex in H as [m Hm]. subst W.
  replace (2 * m + 1 - 1) with (m * 2) by lia. rewrite Z.div_mul by lia.
  replace (2 * m + 1) with (1 + m * 2) by lia.
  rewrite Z.div_add by lia. reflexivity.
Qed.

(** Away from the ends, with an odd window, the slice is the window and
    it is regressed. *)
Lemma slope_at_interior (pts : list (cell * cell)) (W i : Z) :
  0 < W -> Z.odd W = true ->
  0 <= i - (W - 1) / 2 -> i + (W - 1) / 2 <= Py.len pts - 1 ->
  slope_at pts W i
  = cabs (linregress (window_pairs pts (i - (W - 1) / 2) (i + (W - 1) / 2))).
Proof.
  intros Hpos Hodd Hlo Hhi. unfold slope_at, window_pairs.
  pose proof (odd_half W Hodd) as HW.
  set (s := (W - 1) / 2) in *. clearbody s.
  destruct (@slice_inside _ pts (i - s) (i + s + 1)) as [Hsl Hlen]; try lia.
  rewrite Hlen.
  destruct (Z.eqb_spec (i + s + 1 - (i - s)) W); [|lia].
  rewrite Hsl.
  replace (i + s + 1 - (i - s)) with (i + s - (i - s) + 1) by lia.
  reflexivity.
Qed.

(** With an even window the slice of an inner node has [W - 1] elements
    and the test on its length fails. *)
Lemma slope_at_even (pts : list (cell * cell)) (W i : Z) :
  0 < W -> Z.even W = true -> 0 <= i < Py.len pts -> slope_at pts W i = NaN.
Proof.
  intros Hpos Hev Hi. unfold slope_at.
  destruct (Z.eqb_spec
              (Py.len (Py.slice pts (i - (W - 1) / 2) (i + (W - 1) / 2 + 1))) W)
    as [E|_]; [exfalso | reflexivity].
  rewrite slice_len in E. unfold Py.clamp in E.
  apply Zeven_bool_iff in Hev. apply Zeven_ex in Hev as [m Hm].
  assert (Hs : (W - 1) / 2 = m - 1).
  { subst W. replace (2 * m - 1) with (1 + (m - 1) * 2) by lia.
    rewrite Z.div_add by lia. reflexivity. }
  rewrite Hs in E.
  destruct (Z.ltb_spec (i - (m - 1)) 0);
    destruct (Z.ltb_spec (i + (m - 1) + 1) 0); lia.
Qed.

(** The window holds exactly the pairs at the positions [lo] to [hi]. *)
Lemma window_pairs_exact (pts : list (cell * cell)) (lo hi : Z) :
  0 <= lo -> lo <= hi -> hi <= Py.len pts - 1 ->
  Py.len (window_pairs pts lo hi) = hi - lo + 1
  /\ forall k : Z, 0 <= k <= hi - lo ->
       nth_error (window_pairs pts lo hi) (Z.to_nat k)
       = nth_error pts (Z.to_nat (lo + k)).
Proof.
  intros H0 H1 H2. unfold window_pairs. split.
  - unfold Py.len in *. rewrite length_firstn, length_skipn. lia.
  - intros k Hk. rewrite nth_error_firstn.
    destruct (Nat.ltb_spec (Z.to_nat k) (Z.to_nat (hi - lo + 1))); [|lia].
    rewrite nth_error_skipn. f_equal. lia.
Qed.

(** ** The object store *)


Lemma set_nth_same {A} (l : list A) (n : nat) (x : A) :
  nth_error l n = Some x -> set_nth l n x = l.
Proof.
  revert n. induction l as [|y r IH]; intros [|n] H; simpl in *; try congruence.
  now rewrite IH.
Qed.

Lemma set_nth_twice {A} (l : list A) (n : nat) (x y : A) :
  set_nth (set_nth l n x) n y = set_nth l n y.
Proof.
  revert n. induction l as [|z r IH]; intros [|n]; simpl; auto.
  now rewrite IH.
Qed.

Lemma nth_set_nth_eq {A} (l : list A) (n : nat) (x : A) :
  (n < List.length l)%nat -> nth_error (set_nth l n x) n = Some x.
Proof.
  revert n. induction l as [|y r IH]; intros [|n] H; simpl in *; try lia; auto.
  apply IH. lia.
Qed.






(** A loop of updates of one object computes the fold of its body over the
    object's value. *)
Lemma for_each_update_fold {A} (r : ref)
  (g : A -> DataFrame -> result DataFrame) (xs : list A) :
  forall (w : world) (d d' : DataFrame),
    nth_error (heap w) r = Some d ->
    foldM (fun acc x => g x acc) xs d = Ok d' ->
    for_each xs (fun x => update r (g x)) w
    = (Ok tt, mkWorld (set_nth (heap w) r d') (log w)).
Proof.
  induction xs as [|x rest IH]; intros w d d' Hd Hf.
  - simpl in Hf. injection Hf as <-. unfold for_each, ret.
    rewrite (set_nth_same _ _ Hd). now destruct w.
  - cbn [foldM bind] in Hf. destruct (g x d) as [d1|e] eqn:Eg; [|discriminate].
    simpl in Hf.
    assert (Hu : update r (g x) w
                 = (Ok tt, mkWorld (set_nth (heap w) r d1) (log w))).
    { unfold update, mbind, load, lift, store. now rewrite Hd, Eg. }
    assert (Hlt : (r < List.length (heap w))%nat)
      by (apply nth_error_Some; congruence).
    cbn [for_each]. unfold mbind at 1. rewrite Hu.
    rewrite (IH (mkWorld (set_nth (heap w) r d1) (log w)) d1 d').
    + simpl. now rewrite set_nth_twice.
    + simpl. now apply nth_set_nth_eq.
    + exact Hf.
Qed.

(** ** Tables *)

Lemma assoc_replace_eq (k : string) (v : list cell) cols :
  assoc k (replace_col k v cols) = Some v.
Proof.
  induction cols as [|[k' v'] rest IH]; simpl.
  - now rewrite String.eqb_refl.
  - destruct (String.eqb k k') eqn:E; simpl.
    + now rewrite String.eqb_refl.
    + now rewrite E.
Qed.

Lemma assoc_replace_neq (k k0 : string) (v : list cell) cols :
  String.eqb k0 k = false ->
  assoc k0 (replace_col k v cols) = assoc k0 cols.
Proof.
  intro H. induction cols as [|[k' v'] rest IH]; simpl.
  - now rewrite H.
  - destruct (String.eqb k k') eqn:E; simpl.
    + apply String.eqb_eq in E. subst k'. now rewrite H.
    + now rewrite IH.
Qed.

Lemma assoc_In (k : string) cols (v : list cell) :
  assoc k cols = Some v -> In (k, v) cols.
Proof.
  induction cols as [|[k' v'] rest IH]; simpl; [discriminate|].
  destruct (String.eqb k k') eqn:E.
  - apply String.eqb_eq in E. subst. intro H. injection H as ->. now left.
  - intro H. right. auto.
Qed.


Lemma same_but_col_trans (name : string) (d1 d2 d3 : DataFrame) :
  same_but_col name d1 d2 -> same_but_col name d2 d3 -> same_but_col name d1 d3.
Proof.
  intros (I1 & J1 & F1) (I2 & J2 & F2). repeat split; try congruence.
  intros k Hk. rewrite F2, F1; auto.
Qed.

Lemma loc_set_same_but_col (d : DataFrame) mask name vals :
  same_but_col name d (loc_set d mask name vals).
Proof.
  repeat split. intros k Hk. simpl. now apply assoc_replace_neq.
Qed.

Lemma loc_set_col (d : DataFrame) mask name vals :
  assoc name (floats (loc_set d mask name vals))
  = Some (scatter mask (col_or_nan d name) vals).
Proof. simpl. apply assoc_replace_eq. Qed.

Lemma take_mask_length_le {A} (mask : list bool) (xs : list A) :
  (List.length (take_mask mask xs) <= List.length xs)%nat.
Proof.
  revert xs. induction mask as [|b m IH]; intros [|x r]; simpl; try lia.
  specialize (IH r). destruct b; simpl; lia.
Qed.

(** Two columns of one length lose the same rows under a mask. *)
Lemma take_mask_length {A B} (mask : list bool) (xs : list A) (ys : list B) :
  List.length xs = List.length ys ->
  List.length (take_mask mask xs) = List.length (take_mask mask ys).
Proof.
  revert xs ys. induction mask as [|b m IH]; intros [|x r] [|y s] H;
    simpl in *; try congruence; try lia.
  destruct b; simpl; auto.
Qed.

Lemma scatter_length (mask : list bool) (old vals : list cell) :
  List.length mask = List.length old ->
  List.length (scatter mask old vals) = List.length old.
Proof.
  revert old vals. induction mask as [|b m IH]; intros [|x o] vals H;
    simpl in *; try congruence.
  destruct b; [destruct vals|]; simpl; rewrite IH; auto.
Qed.

(** The masked rows read back the values written. *)
Lemma take_scatter (mask : list bool) (old vals : list cell) :
  List.length mask = List.length old ->
  List.length vals = List.length (take_mask mask old) ->
  take_mask mask (scatter mask old vals) = vals.
Proof.
  revert old vals. induction mask as [|b m IH]; intros [|x o] vals H1 H2;
    simpl in *; try congruence.
  - destruct vals; [reflexivity | discriminate].
  - destruct b.
    + destruct vals as [|v vs]; simpl in *; [discriminate|].
      rewrite IH; auto.
    + apply IH; auto.
Qed.

(** Rows of another source keep their values. *)
Lemma take_scatter_other (ids : list Z) (a b : Z) (old vals : list cell) :
  a <> b ->
  take_mask (map (Z.eqb b) ids) (scatter (map (Z.eqb a) ids) old vals)
  = take_mask (map (Z.eqb b) ids) old.
Proof.
  intro Hab. revert old vals.
  induction ids as [|x r IH]; intros [|y o] vals; simpl; auto.
  destruct (Z.eqb_spec a x) as [Ea|Na].
  - destruct (Z.eqb_spec b x) as [Eb|Nb]; [congruence|].
    destruct vals; apply IH.
  - destruct (b =? x); [f_equal|]; apply IH.
Qed.

Lemma unique_In (l : list Z) (x : Z) : In x (unique l) <-> In x l.
Proof.
  induction l as [|y r IH]; simpl; [tauto|].
  rewrite filter_In, IH. destruct (Z.eqb_spec x y); simpl; intuition congruence.
Qed.

Lemma NoDup_filter {A} (f : A -> bool) (l : list A) :
  NoDup l -> NoDup (filter f l).
Proof.
  induction 1 as [|x l Hx Hl IH]; simpl; [constructor|].
  destruct (f x); [constructor|]; auto.
  rewrite filter_In. tauto.
Qed.

Lemma unique_NoDup (l : list Z) : NoDup (unique l).
Proof.
  induction l as [|y r IH]; simpl; constructor.
  - rewrite filter_In. rewrite Z.eqb_refl. simpl. intros [_ H]. discriminate.
  - now apply NoDup_filter.
Qed.

(** ** [CalculateSlope]: the whole table *)

Section SlopePass.

Variable W : Z.
Variable ids : list Z.
Variables dcol ecol : list cell.
Hypothesis dcol_len : List.length dcol = List.length ids.
Hypothesis ecol_len : List.length ecol = List.length ids.

Local Abbreviation mask := (id_mask ids).
Local Abbreviation vals := (source_slopes W ids dcol ecol).
Local Abbreviation slope_inv := (slope_inv ids dcol ecol).

Lemma slope_step_run (d : DataFrame) (a : Z) :
  slope_inv d ->
  slope_step W d a = Ok (loc_set d (mask a) "slope" (vals a))
  /\ slope_inv (loc_set d (mask a) "slope" (vals a)).
Proof.
  intros (Hid & Hd & He & Hl). split.
  - unfold slope_step, get_id, get_col. rewrite Hd. cbn [bind].
    rewrite Hid. cbn [bind]. rewrite He. reflexivity.
  - repeat split; try assumption.
    + simpl. now rewrite assoc_replace_neq.
    + simpl. now rewrite assoc_replace_neq.
    + unfold col_or_nan at 1. rewrite loc_set_col.
      rewrite scatter_length; [exact Hl|].
      unfold id_mask. now rewrite length_map.
Qed.

Lemma vals_length (a : Z) (old : list cell) :
  List.length old = List.length ids ->
  List.length (vals a) = List.length (take_mask (mask a) old).
Proof.
  intro H. unfold source_slopes. rewrite profile_slopes_length, length_combine.
  rewrite (@take_mask_length _ _ (mask a) ecol dcol) by congruence.
  rewrite Nat.min_id. apply take_mask_length. congruence.
Qed.

Lemma slope_pass_run (l : list Z) :
  forall d, slope_inv d ->
    exists d',
      foldM (fun acc x => slope_step W acc x) l d = Ok d'
      /\ slope_inv d'
      /\ same_but_col "slope" d d'
      /\ (forall b, ~ In b l ->
            take_mask (mask b) (col_or_nan d' "slope")
            = take_mask (mask b) (col_or_nan d "slope"))
      /\ (NoDup l -> forall a, In a l ->
            take_mask (mask a) (col_or_nan d' "slope") = vals a)
      /\ (assoc "slope" (floats d) <> None \/ l <> [] ->
          assoc "slope" (floats d') = Some (col_or_nan d' "slope")).
Proof.
  induction l as [|x rest IH]; intros d Hinv.
  - exists d. repeat split; try apply Hinv; intros; try reflexivity.
    + contradiction.
    + unfold col_or_nan. destruct (assoc "slope" (floats d)); [reflexivity|].
      destruct H; congruence.
  - destruct (slope_step_run x Hinv) as [Hstep Hinv1].
    destruct (IH _ Hinv1) as (d' & Hf & Hinv' & Hsame & Hother & Hdone & Hcol).
    assert (Hcol1 : col_or_nan (loc_set d (mask x) "slope" (vals x)) "slope"
                    = scatter (mask x) (col_or_nan d "slope") (vals x)).
    { unfold col_or_nan at 1. now rewrite loc_set_col. }
    exists d'. split; [|split; [|split; [|split; [|split]]]].
    + cbn [foldM]. rewrite Hstep. exact Hf.
    + exact Hinv'.
    + eapply same_but_col_trans; [apply loc_set_same_but_col | exact Hsame].
    + intros b Hb. rewrite Hother by (intro; apply Hb; now right).
      rewrite Hcol1. unfold id_mask. apply take_scatter_other.
      intro E. apply Hb. now left.
    + intros Hnd a Ha. inversion Hnd as [|? ? Hx Hnd']; subst.
      destruct Ha as [<- | Ha].
      * rewrite Hother by exact Hx. rewrite Hcol1.
        destruct Hinv as (_ & _ & _ & Hl).
        apply take_scatter.
        -- unfold id_mask. rewrite length_map. congruence.
        -- apply vals_length. exact Hl.
      * apply Hdone; assumption.
    + intros _. apply Hcol. left. rewrite loc_set_col. discriminate.
Qed.

End SlopePass.

Lemma rectangular_slope_len (frame : DataFrame) (ids : list Z) :
  rectangular frame -> id frame = Some ids ->
  List.length (col_or_nan frame "slope") = List.length ids.
Proof.
  intros [Hid Hcols] Hi. rewrite (Hid _ Hi). unfold col_or_nan.
  destruct (assoc "slope" (floats frame)) as [xs|] eqn:E.
  - apply assoc_In in E. rewrite Forall_forall in Hcols.
    exact (Hcols _ E).
  - apply length_map.
Qed.

Lemma rectangular_col_len (frame : DataFrame) (ids : list Z) name col :
  rectangular frame -> id frame = Some ids ->
  assoc name (floats frame) = Some col ->
  List.length col = List.length ids.
Proof.
  intros [Hid Hcols] Hi E. rewrite (Hid _ Hi).
  apply assoc_In in E. rewrite Forall_forall in Hcols. exact (Hcols _ E).
Qed.

(** [CalculateSlope] on a table with its columns: it returns the address
    it was given, the object at that address has become a table that
    differs in the column ['slope'] only, and the rows of every source
    hold the slopes of that source's profile. *)
Lemma CalculateSlope_run (w : world) (df : ref) (W : Z) (frame : DataFrame)
  (ids : list Z) (dcol ecol : list cell) :
  nth_error (heap w) df = Some frame ->
  rectangular frame ->
  id frame = Some ids ->
  assoc "distance_from_source" (floats frame) = Some dcol ->
  assoc "elevation" (floats frame) = Some ecol ->
  exists frame',
    CalculateSlope df W w
    = (Ok df, mkWorld (set_nth (heap w) df frame') (log w ++ [EvPrint]))
    /\ same_but_col "slope" frame frame'
    /\ forall a, In a ids ->
         exists sl,
           assoc "slope" (floats frame') = Some sl
           /\ take_mask (id_mask ids a) sl = source_slopes W ids dcol ecol a.
Proof.
  intros Hnth Hrect Hid Hd He.
  assert (Hinv : slope_inv ids dcol ecol frame).
  { repeat split; try assumption. now apply rectangular_slope_len. }
  destruct (@slope_pass_run W ids dcol ecol
              (rectangular_col_len _ Hrect Hid Hd)
              (rectangular_col_len _ Hrect Hid He)
              (unique ids) frame Hinv)
    as (frame' & Hfold & _ & Hsame & _ & Hdone & Hcol).
  exists frame'. split; [|split].
  - pose proof (@for_each_update_fold Z df (fun x d => slope_step W d x)
                  (unique ids) w frame frame' Hnth Hfold) as Hrun.
    cbv beta in Hrun.
    unfold CalculateSlope. unfold mbind at 1. unfold load. rewrite Hnth.
    unfold mbind at 1. unfold lift, get_id. rewrite Hid.
    unfold mbind at 1. rewrite Hrun.
    reflexivity.
  - exact Hsame.
  - intros a Ha. exists (col_or_nan frame' "slope"). split.
    + apply Hcol. right. intro E.
      apply unique_In in Ha. rewrite E in Ha. contradiction.
    + apply Hdone; [apply unique_NoDup | now apply unique_In].
Qed.

(** The rows of a source hold, after the run, the slopes of the loop over
    that source's profile. *)
Lemma slopes_written_profile (w : world) (df : ref) (W : Z)
  (frame : DataFrame) (ids : list Z) (dcol ecol : list cell) (a : Z) :
  nth_error (heap w) df = Some frame ->
  rectangular frame ->
  id frame = Some ids ->
  assoc "distance_from_source" (floats frame) = Some dcol ->
  assoc "elevation" (floats frame) = Some ecol ->
  In a ids ->
  fst (CalculateSlope df W w) = Ok df
  /\ pts_of frame a
     = combine (take_mask (id_mask ids a) dcol) (take_mask (id_mask ids a) ecol)
  /\ slopes_written w df W a
     = Some (profile_slopes (take_mask (id_mask ids a) dcol)
               (take_mask (id_mask ids a) ecol) W).
Proof.
  intros Hnth Hrect Hid Hd He Ha.
  destruct (@CalculateSlope_run w df W frame ids dcol ecol Hnth Hrect Hid Hd He)
    as (frame' & Hrun & (_ & Hid' & _) & Hsl).
  destruct (Hsl a Ha) as (sl & Hcol & Htake).
  split; [|split].
  - now rewrite Hrun.
  - unfold pts_of. now rewrite Hid, Hd, He.
  - unfold slopes_written. rewrite Hrun. cbn [snd heap].
    rewrite nth_set_nth_eq by (apply nth_error_Some; congruence).
    rewrite Hid', Hid, Hcol, Htake. reflexivity.
Qed.

(** C4: a node whose window [i - (W-1)/2, i + (W-1)/2] is not inside the
    index range of its profile, and every node of a profile with fewer
    than [W] samples, gets a missing ([nan]) slope from [CalculateSlope];
    nothing is extrapolated. *)
Theorem CalculateSlope_edge_missing :
  forall (w : world) (df : ref) (W : Z) (frame : DataFrame) (ids : list Z)
         (dcol ecol : list cell) (a i : Z),
    nth_error (heap w) df = Some frame ->
    rectangular frame ->
    id frame = Some ids ->
    assoc "distance_from_source" (floats frame) = Some dcol ->
    assoc "elevation" (floats frame) = Some ecol ->
    In a ids ->
    0 <= i < Py.len (pts_of frame a) ->
    (i - (W - 1) / 2 < 0
     \/ Py.len (pts_of frame a) - 1 < i + (W - 1) / 2
     \/ Py.len (pts_of frame a) < W) ->
    fst (CalculateSlope df W w) = Ok df
    /\ exists sl,
         slopes_written w df W a = Some sl
         /\ List.length sl = List.length (pts_of frame a)
         /\ nth_error sl (Z.to_nat i) = Some NaN.
Proof.
  intros w df W frame ids dcol ecol a i Hnth Hrect Hid Hd He Ha Hi Hedge.
  destruct (@slopes_written_profile w df W frame ids dcol ecol a
              Hnth Hrect Hid Hd He Ha)
    as (Hok & Hpts & Hsl).
  split; [exact Hok|].
  eexists. split; [exact Hsl|]. rewrite Hpts in *. split.
  - apply profile_slopes_length.
  - rewrite profile_slopes_nth by exact Hi. f_equal.
    destruct Hedge as [H | [H | H]].
    + apply slope_at_edge; auto.
    + apply slope_at_edge; auto.
    + now apply slope_at_short.
Qed.

Lemma line_frame_rectangular : rectangular line_frame.
Proof.
  split.
  - intros ids H. injection H as <-. reflexivity.
  - repeat constructor.
Qed.

(** Window 5 on the straight line: the gradient's magnitude at the three
    inner nodes, missing at the two nodes of each end. *)
Example line_slopes_window_5 :
  exists sl,
    slopes_written line_world 0%nat 5 7 = Some sl
    /\ Forall2 cell_same sl [NaN; NaN; Num 2; Num 2; Num 2; NaN; NaN].
Proof.
  eexists. split; [vm_compute; reflexivity|].
  repeat constructor; vm_compute; reflexivity.
Qed.

Lemma CalculateSlope_edge_missing_witness :
  fst (CalculateSlope 0%nat 5 line_world) = Ok 0%nat
  /\ exists sl,
       slopes_written line_world 0%nat 5 7 = Some sl
       /\ List.length sl = List.length (pts_of line_frame 7)
       /\ nth_error sl (Z.to_nat 1) = Some NaN.
Proof.
  apply (@CalculateSlope_edge_missing line_world 0%nat 5 line_frame
           [7; 7; 7; 7; 7; 7; 7]
           (floats_of [0; 1; 2; 3; 4; 5; 6]%Q)
           (floats_of [20; 18; 16; 14; 12; 10; 8]%Q) 7 1).
  - reflexivity.
  - exact line_frame_rectangular.
  - reflexivity.
  - reflexivity.
  - reflexivity.
  - simpl. tauto.
  - vm_compute. split; [discriminate | reflexivity].
  - left. vm_compute. reflexivity.
Defined.

(** C1 (as the code has it): for an odd window size [W], every node whose
    window [i - (W-1)/2, i + (W-1)/2] lies inside its profile gets from
    [CalculateSlope] the absolute value of the gradient [linregress] fits
    through exactly the (distance, elevation) pairs of that window, which
    is the ordinary-least-squares gradient of the direct formula. *)
Theorem CalculateSlope_interior_ols :
  forall (w : world) (df : ref) (W : Z) (frame : DataFrame) (ids : list Z)
         (dcol ecol : list cell) (a i : Z),
    nth_error (heap w) df = Some frame ->
    rectangular frame ->
    id frame = Some ids ->
    assoc "distance_from_source" (floats frame) = Some dcol ->
    assoc "elevation" (floats frame) = Some ecol ->
    In a ids ->
    0 < W -> Z.odd W = true ->
    0 <= i - (W - 1) / 2 ->
    i + (W - 1) / 2 <= Py.len (pts_of frame a) - 1 ->
    fst (CalculateSlope df W w) = Ok df
    /\ exists sl v,
         slopes_written w df W a = Some sl
         /\ nth_error sl (Z.to_nat i) = Some v
         /\ v = cabs (linregress (window_pairs (pts_of frame a)
                                    (i - (W - 1) / 2) (i + (W - 1) / 2)))
         /\ cell_same v
              (cabs (ols (window_pairs (pts_of frame a)
                            (i - (W - 1) / 2) (i + (W - 1) / 2)))).
Proof.
  intros w df W frame ids dcol ecol a i Hnth Hrect Hid Hd He Ha
         Hpos Hodd Hlo Hhi.
  destruct (@slopes_written_profile w df W frame ids dcol ecol a
              Hnth Hrect Hid Hd He Ha)
    as (Hok & Hpts & Hsl).
  split; [exact Hok|].
  assert (Hs : 0 <= (W - 1) / 2) by (apply Z.div_pos; lia).
  do 2 eexists. split; [exact Hsl|]. rewrite Hpts in *. split; [|split].
  - apply profile_slopes_nth. lia.
  - now apply slope_at_interior.
  - rewrite slope_at_interior by assumption.
    apply cabs_same, linregress_is_ols.
Qed.

Lemma CalculateSlope_interior_ols_witness :
  fst (CalculateSlope 0%nat 5 line_world) = Ok 0%nat
  /\ exists sl v,
       slopes_written line_world 0%nat 5 7 = Some sl
       /\ nth_error sl (Z.to_nat 3) = Some v
       /\ v = cabs (linregress (window_pairs (pts_of line_frame 7)
                                  (3 - (5 - 1) / 2) (3 + (5 - 1) / 2)))
       /\ cell_same v
            (cabs (ols (window_pairs (pts_of line_frame 7)
                          (3 - (5 - 1) / 2) (3 + (5 - 1) / 2)))).
Proof.
  apply (@CalculateSlope_interior_ols line_world 0%nat 5 line_frame
           [7; 7; 7; 7; 7; 7; 7]
           (floats_of [0; 1; 2; 3; 4; 5; 6]%Q)
           (floats_of [20; 18; 16; 14; 12; 10; 8]%Q) 7 3).
  - reflexivity.
  - exact line_frame_rectangular.
  - reflexivity.
  - reflexivity.
  - reflexivity.
  - simpl. tauto.
  - lia.
  - reflexivity.
  - vm_compute. discriminate.
  - vm_compute. discriminate.
Defined.

(** With an even window size no node gets a slope. *)
Lemma CalculateSlope_even_missing (pts_dist pts_elev : list cell) (W : Z) :
  0 < W -> Z.even W = true ->
  Forall (eq NaN) (profile_slopes pts_dist pts_elev W).
Proof.
  intros Hpos Hev. apply Forall_forall. intros v Hv.
  unfold profile_slopes in Hv. apply in_map_iff in Hv as (i & <- & Hi).
  unfold Py.range in Hi. apply in_map_iff in Hi as (k & <- & Hk).
  apply in_seq in Hk. symmetry. apply slope_at_even; try assumption.
  unfold Py.len in *. lia.
Qed.

(** C1 as stated fails: with the window size 4 the window [i-1, i+1] of
    the middle nodes of the straight line lies inside the profile and its
    least-squares gradient is -2, yet the slope written is missing. *)
Lemma interior_slopes_counterexample :
  ~ interior_slopes_are_ols line_world 0%nat 4.
Proof.
  intro H.
  destruct (H line_frame [7; 7; 7; 7; 7; 7; 7] 7 3) as (sl & v & Hsl & Hv & Hsame).
  - reflexivity.
  - reflexivity.
  - simpl. tauto.
  - vm_compute. discriminate.
  - vm_compute. discriminate.
  - vm_compute in Hsl. injection Hsl as <-.
    vm_compute in Hv. injection Hv as <-.
    vm_compute in Hsame. exact Hsame.
Qed.

(** ** The distance transform of [ClusterProfiles] *)

Lemma np_arccos_in_range (c : cell) :
  in_unit_range c ->
  exists r, np_arccos c = Some r /\ (0 <= r <= PI)%R.
Proof.
  destruct c as [|q]; simpl; [tauto|]. intros [H1 H2].
  apply Qle_bool_iff in H1, H2. rewrite H1, H2. simpl.
  eexists. split; [reflexivity | apply acos_bound].
Qed.




(** The dissimilarities are all defined exactly when no correlation is
    missing or outside [-1, 1]. *)
Lemma distances_defined_iff (cc : list cell) :
  distances_defined cc <-> Forall in_unit_range cc.
Proof.
  unfold distances_defined, arccos_distances. rewrite Forall_map.
  split; intro H; eapply Forall_impl; try exact H; intros c Hc.
  - destruct c as [|q]; simpl in *.
    + destruct Hc as (r & Hr & _). discriminate.
    + destruct Hc as (r & Hr & _).
      destruct (Qle_bool (-1) q) eqn:E1; [|discriminate].
      destruct (Qle_bool q 1) eqn:E2; [|discriminate].
      split; now apply Qle_bool_iff.
  - now apply np_arccos_in_range.
Qed.


(** ** [ResampleProfiles]: the resampling loop *)

(** One pass of the loop over [profiles] never completes: the row
    assignment fails, or the name [reg_df] is looked up. *)
Lemma resample_step_raises (profile_len : Z) (data : list (list cell))
  (ip : Z * profile) :
  exists e, resample_step profile_len data ip = Raise e.
Proof.
  destruct ip as [i [[distances slopes] areas]].
  unfold resample_step. cbn [nearest_loop bind].
  destruct (set_row data profile_len i []) as [d|e]; cbn [bind]; eauto.
Qed.

(** The row assignment itself fails for every width but zero: the list
    [reg_slope] is empty. *)
Lemma resample_step_broadcast (profile_len : Z) (data : list (list cell))
  (i : Z) (p : profile) :
  0 <= i < Py.len data -> profile_len <> 0 ->
  resample_step profile_len data (i, p)
  = Raise (ValueError "could not broadcast input array").
Proof.
  intros Hi HL. destruct p as [[distances slopes] areas].
  unfold resample_step. cbn [nearest_loop bind]. unfold set_row.
  destruct (Z.ltb_spec i 0); [lia|].
  destruct (Z.leb_spec (Py.len data) i); [lia|]. simpl orb.
  change (Py.len (@nil cell)) with 0.
  destruct (Z.eqb_spec 0 profile_len); [lia|]. reflexivity.
Qed.

Lemma foldM_resample_raises (profile_len : Z) (ps : list (Z * profile)) :
  ps <> [] ->
  forall data, exists e, foldM (resample_step profile_len) ps data = Raise e.
Proof.
  intros Hne data. destruct ps as [|ip rest]; [congruence|].
  cbn [foldM]. destruct (resample_step_raises profile_len data ip) as [e He].
  rewrite He. cbn [bind]. eauto.
Qed.

Lemma enumerate_nil {A} (xs : list A) : enumerate xs = [] -> xs = [].
Proof.
  destruct xs as [|x r]; [reflexivity|]. unfold enumerate, Py.range.
  rewrite len_cons. pose proof (len_nonneg r).
  replace (Z.to_nat (1 + Py.len r)) with (S (Z.to_nat (Py.len r))) by lia.
  discriminate.
Qed.

(** What the first loop keeps true: as many profiles as retained sources,
    and an untouched [thinned_df] while nothing is retained. *)
Lemma select_step_shape (df : DataFrame) (profile_len : Z)
  (acc acc' : selection) (source : Z) :
  select_step df profile_len acc source = Ok acc' ->
  let '(profiles, thinned, fs) := acc in
  let '(profiles', thinned', fs') := acc' in
  (List.length profiles = List.length fs ->
   List.length profiles' = List.length fs')
  /\ (profiles' = [] -> profiles = [] /\ thinned' = thinned /\ fs' = fs).
Proof.
  destruct acc as [[profiles thinned] fs]. destruct acc' as [[profiles' thinned'] fs'].
  unfold select_step.
  destruct (get_id df) as [ids|e]; cbn [bind]; [|discriminate].
  destruct (get_col _ "slope") as [sc|e]; cbn [bind]; [|discriminate].
  destruct (get_col _ "slope") as [sl|e]; cbn [bind]; [|discriminate].
  destruct (get_col _ "distance_from_source") as [ds|e]; cbn [bind]; [|discriminate].
  destruct (get_col _ "drainage_areas") as [ar|e]; cbn [bind]; [|discriminate].
  destruct (reaches_min_length _ _); intro H; injection H as <- <- <-.
  - split.
    + intro E. rewrite !length_app, E. reflexivity.
    + intro E. destruct profiles; discriminate.
  - split; auto.
Qed.

Lemma select_fold_shape (df : DataFrame) (profile_len : Z) (l : list Z) :
  forall profiles thinned fs profiles' thinned' fs',
    foldM (select_step df profile_len) l (profiles, thinned, fs)
    = Ok (profiles', thinned', fs') ->
    (List.length profiles = List.length fs ->
     List.length profiles' = List.length fs')
    /\ (profiles' = [] -> profiles = [] /\ thinned' = thinned /\ fs' = fs).
Proof.
  induction l as [|x rest IH]; intros profiles thinned fs profiles' thinned' fs' H.
  - simpl in H. injection H as <- <- <-. auto.
  - cbn [foldM] in H.
    destruct (select_step df profile_len (profiles, thinned, fs) x)
      as [[[p1 t1] f1]|e] eqn:E; cbn [bind] in H; [|discriminate].
    pose proof (select_step_shape _ _ _ _ E) as [Ha Hb].
    destruct (IH _ _ _ _ _ _ H) as [Hc Hd]. split.
    + auto.
    + intro En. destruct (Hd En) as (-> & -> & ->).
      destruct (Hb eq_refl) as (-> & -> & ->). auto.
Qed.

(** Whenever the resampling returns, it has retained nothing: no row, no
    source, and an empty table. *)
Lemma resample_returns_nothing (df : DataFrame) (profile_len step : Z)
  (thinned : DataFrame) (data : list (list cell)) (fs : list Z) :
  resample df profile_len step = Ok (thinned, data, fs) ->
  thinned = empty_frame /\ data = [] /\ fs = [].
Proof.
  unfold resample.
  destruct (Py.arange 0 profile_len step) as [rd|e]; cbn [bind]; [|discriminate].
  destruct (select_profiles df profile_len) as [[[profiles t] f]|e] eqn:Esel;
    cbn [bind]; [|discriminate].
  destruct (np_empty (Py.len profiles) profile_len) as [d0|e] eqn:Ed;
    cbn [bind]; [|discriminate].
  destruct profiles as [|p ps].
  - unfold select_profiles in Esel.
    destruct (get_id df) as [ids|e]; cbn [bind] in Esel; [|discriminate].
    apply select_fold_shape in Esel. destruct Esel as [_ Hd].
    destruct (Hd eq_refl) as (_ & -> & ->).
    unfold np_empty in Ed. change (Py.len (@nil profile)) with 0 in Ed.
    destruct ((0 <? 0) || (profile_len <? 0)); [discriminate|].
    injection Ed as <-. simpl. intro H. injection H as <- <- <-. auto.
  - destruct (@foldM_resample_raises profile_len (enumerate (p :: ps))) with (data := d0)
      as [e He].
    + intro E. apply enumerate_nil in E. discriminate.
    + rewrite He. discriminate.
Qed.

(** ** [ResampleProfiles] and [ClusterProfiles] in the store *)

(** A run of [ResampleProfiles] logs itself, never writes to an existing
    object, and when it returns hands back a fresh, empty table with no
    row of data and no source. *)
Lemma ResampleProfiles_run (w : world) (df : ref) (profile_len step : Z) :
  let out := ResampleProfiles df profile_len step w in
  log (snd out) = log w ++ [EvResample]
  /\ match fst out with
     | Ok (t, data, fs) =>
         t = List.length (heap w)
         /\ heap (snd out) = heap w ++ [empty_frame]
         /\ data = [] /\ fs = []
     | Raise _ => heap (snd out) = heap w
     end.
Proof.
  unfold ResampleProfiles, mbind, emit, load, lift, alloc, ret.
  cbn [heap log].
  destruct (nth_error (heap w) df) as [frame|]; [|cbn; auto].
  destruct (resample frame profile_len step) as [[[t d] f]|e] eqn:E; [|cbn; auto].
  apply resample_returns_nothing in E. destruct E as (-> & -> & ->).
  cbn. auto.
Qed.

Lemma get_id_empty_frame : get_id empty_frame = Raise (KeyError "id").
Proof. reflexivity. Qed.

(** [ClusterProfiles] never returns: either the resampling raises, or it
    returns an empty table, and then at the latest the lookup of the
    column ['id'] in that table raises. *)
Lemma ClusterProfiles_never_returns (X : Externals) (df : ref)
  (profile_len step : Z) (min_corr : cell) (method : string) (w : world) :
  exists e,
    fst (ClusterProfiles X df profile_len step min_corr method w) = Raise e.
Proof.
  unfold ClusterProfiles. unfold mbind at 1. unfold emit at 1.
  unfold mbind at 1.
  pose proof (ResampleProfiles_run
                {| heap := heap w; log := log w ++ [EvPrint] |} df profile_len step)
    as [_ Hrun].
  destruct (ResampleProfiles df profile_len step _) as [[[[t d] f]|e] w1];
    cbn [fst snd] in *; [|eauto].
  destruct Hrun as (-> & Hheap & -> & ->). cbn [heap] in Hheap.
  unfold cluster_resampled, mbind, emit, lift. cbn [heap log].
  destruct (Pearson X []) as [cc|e]; [|cbn; eauto].
  destruct (linkage X _ method) as [ln|e]; [|cbn; eauto].
  destruct (fcluster X ln _) as [cl|e]; [|cbn; eauto].
  destruct (array_max cl) as [top|e]; [|cbn; eauto].
  unfold assign_clusters, mbind, load, lift. cbn [heap log].
  rewrite Hheap, nth_error_app2, Nat.sub_diag by lia. cbn [nth_error].
  rewrite get_id_empty_frame. cbn. eauto.
Qed.

(** Whenever the first loop has retained a source and the rows have a
    width, the first pass of the second loop raises. *)
Lemma resample_raises_when_retained (df : DataFrame) (profile_len step : Z)
  (p : profile) (ps : list profile) (thinned : DataFrame) (fs : list Z) :
  step <> 0 -> 0 < profile_len ->
  select_profiles df profile_len = Ok (p :: ps, thinned, fs) ->
  resample df profile_len step
  = Raise (ValueError "could not broadcast input array").
Proof.
  intros Hstep HL Hsel. unfold resample, Py.arange.
  destruct (Z.eqb_spec step 0); [contradiction|].
  assert (Harange : exists rd,
            (if 0 <? step
             then Ok (Py.arange_from 0 step
                        (Z.to_nat ((profile_len - 0 + step - 1) / step)))
             else Ok (Py.arange_from 0 step
                        (Z.to_nat ((0 - profile_len - step - 1) / - step))))
            = Ok rd) by (destruct (0 <? step); eauto).
  destruct Harange as [rd ->]. cbn [bind]. rewrite Hsel. cbn [bind].
  unfold np_empty. rewrite len_cons. pose proof (len_nonneg ps) as Hps.
  destruct (Z.ltb_spec (1 + Py.len ps) 0); [lia|].
  destruct (Z.ltb_spec profile_len 0); [lia|]. cbn [orb bind].
  unfold enumerate, Py.range. rewrite len_cons.
  replace (Z.to_nat (1 + Py.len ps)) with (S (Z.to_nat (Py.len ps))) by lia.
  cbn [seq map combine foldM].
  rewrite resample_step_broadcast; [reflexivity | | lia].
  unfold Py.len. rewrite repeat_length. lia.
Qed.

(** C2 (what the code does): on a table with a qualifying profile
    [ResampleProfiles] returns no array at all.  Source 7 has five valid
    slopes and qualifies for [profile_len = 7]; the loop over the profiles
    then empties [reg_dist] before iterating over it, so [reg_slope] stays
    empty and its assignment to the row of width 7 raises. *)
Theorem ResampleProfiles_raises_on_retained :
  fst (ResampleProfiles 0%nat 7 1 survey_world)
  = Raise (ValueError "could not broadcast input array").
Proof. vm_compute. reflexivity. Qed.

(** With a row width of zero the assignment passes and the next statement
    raises: the name [reg_df] is not bound. *)
Example ResampleProfiles_raises_reg_df :
  fst (ResampleProfiles 0%nat 0 1 survey_world) = Raise (NameError "reg_df").
Proof. vm_compute. reflexivity. Qed.

(** When no profile qualifies the function returns, with nothing. *)
Example ResampleProfiles_returns_empty :
  fst (ResampleProfiles 0%nat 8 1 survey_world) = Ok (1%nat, [], []).
Proof. vm_compute. reflexivity. Qed.

(** A table whose area column is called ['drainage_area'] stops the first
    loop at its first source. *)
Example ResampleProfiles_raises_area :
  fst (ResampleProfiles 0%nat 7 1 (mkWorld [survey_frame_area] []))
  = Raise (KeyError "drainage_areas").
Proof. vm_compute. reflexivity. Qed.







Example method_rejected_late_run :
  ClusterProfiles checking_libraries 0%nat 8 1 (Num (1 # 2)) "bogus" survey_world
  = (Raise (ValueError "Invalid method"),
     mkWorld [survey_frame; empty_frame]
       [EvPrint; EvResample; EvPearson; EvArccos; EvLinkage "bogus"]).
Proof. vm_compute. reflexivity. Qed.

(** ** Who writes to which table *)




Lemma CalculateSlope_unfold (w : world) (df : ref) (W : Z) (frame : DataFrame) :
  nth_error (heap w) df = Some frame ->
  CalculateSlope df W w
  = match get_id frame with
    | Raise e => (Raise e, w)
    | Ok ids =>
        match for_each (unique ids)
                (fun x => update df (fun d => slope_step W d x)) w with
        | (Ok _, w1) => (Ok df, mkWorld (heap w1) (log w1 ++ [EvPrint]))
        | (Raise e, w1) => (Raise e, w1)
        end
    end.
Proof.
  intro Hd. unfold CalculateSlope. unfold mbind at 1. unfold load.
  rewrite Hd. unfold mbind at 1. unfold lift.
  destruct (get_id frame) as [ids|e]; [|reflexivity].
  unfold mbind at 1. destruct (for_each _ _ w) as [[u|e] w1]; reflexivity.
Qed.

Lemma assign_clusters_unfold (w : world) (t : ref) (cl : list Z)
  (frame : DataFrame) :
  nth_error (heap w) t = Some frame ->
  assign_clusters t cl w
  = match get_id frame with
    | Raise e => (Raise e, w)
    | Ok ids =>
        match for_each (enumerate (unique ids))
                (fun x => update t (cluster_step cl x))
                (mkWorld (heap w) (log w ++ [EvPlot])) with
        | (Ok _, w1) => (Ok t, w1)
        | (Raise e, w1) => (Raise e, w1)
        end
    end.
Proof.
  intro Hd. unfold assign_clusters. unfold mbind at 1. unfold load.
  rewrite Hd. unfold mbind at 1. unfold lift.
  destruct (get_id frame) as [ids|e]; [|reflexivity].
  unfold mbind at 1. unfold emit at 1. unfold mbind at 1.
  destruct (for_each _ _ _) as [[u|e] w1]; reflexivity.
Qed.



Lemma same_but_log (r : ref) (w w' : world) (l : list event) :
  same_but r w w' -> same_but r (mkWorld (heap w) l) w'.
Proof. intros [A B]. split; assumption. Qed.







(** ** [ResampleProfiles]: the qualification filter *)

(** The test on integers decides the comparison with
    [profile_len / sqrt(2)] on the reals. *)
Lemma reaches_min_length_real (n profile_len : Z) :
  0 <= n ->
  reaches_min_length n profile_len = true
  <-> (IZR profile_len / sqrt 2 <= IZR n)%R.
Proof.
  intro Hn. unfold reaches_min_length.
  rewrite orb_true_iff, !Z.leb_le.
  pose proof Rlt_sqrt2_0 as Hs.
  assert (Hss : (sqrt 2 * sqrt 2 = 2)%R) by (apply sqrt_sqrt; lra).
  assert (HnR : (0 <= IZR n)%R) by (apply IZR_le; exact Hn).
  assert (Hdiv : (IZR profile_len / sqrt 2 <= IZR n
                  <-> IZR profile_len <= IZR n * sqrt 2)%R).
  { split; intro H.
    - apply Rmult_le_reg_r with (r := (/ sqrt 2)%R).
      + now apply Rinv_0_lt_compat.
      + rewrite Rmult_assoc, Rinv_r by lra. unfold Rdiv in H. lra.
    - unfold Rdiv. apply Rmult_le_reg_r with (r := sqrt 2); [exact Hs|].
      rewrite Rmult_assoc, Rinv_l by lra. lra. }
  rewrite Hdiv. split.
  - intros [H | H].
    + apply IZR_le in H. nra.
    + apply IZR_le in H. rewrite !mult_IZR in H.
      destruct (Rle_or_lt (IZR profile_len) (IZR n * sqrt 2)) as [?|Hgt];
        [assumption|].
      exfalso. assert (0 <= IZR n * sqrt 2)%R by nra. nra.
  - intro H. destruct (Z.le_gt_cases profile_len 0) as [?|Hpos]; [now left|].
    right. apply le_IZR. rewrite !mult_IZR.
    assert (0 < IZR profile_len)%R by (apply IZR_lt; lia). nra.
Qed.

Lemma assoc_select (k : string) (d : DataFrame) (mask : list bool) :
  assoc k (floats (select d mask)) = option_map (take_mask mask) (assoc k (floats d)).
Proof.
  unfold select. cbn [floats].
  induction (floats d) as [|[k' v] rest IH]; simpl; [reflexivity|].
  destruct (String.eqb k k'); [reflexivity | exact IH].
Qed.

Lemma take_mask_map_filter {A} (f : A -> bool) (xs : list A) :
  take_mask (map f xs) xs = filter f xs.
Proof.
  induction xs as [|x r IH]; simpl; [reflexivity|].
  destruct (f x); now rewrite IH.
Qed.

Lemma valid_count_filter (a : Z) (ids : list Z) (sl : list cell) :
  List.length (filter (fun c => negb (isnan c))
                 (take_mask (map (Z.eqb a) ids) sl))
  = List.length (filter (fun p => (a =? fst p) && negb (isnan (snd p)))
                   (combine ids sl)).
Proof.
  revert sl. induction ids as [|x r IH]; intros [|c sl]; simpl; auto.
  destruct (a =? x); simpl.
  - destruct (negb (isnan c)); simpl; now rewrite IH.
  - apply IH.
Qed.

(** One pass of the first loop, on a table that has the columns read. *)
Lemma select_step_run (frame : DataFrame) (profile_len : Z)
  (ids : list Z) (sl dcol acol : list cell)
  (profiles : list profile) (thinned : DataFrame) (fs : list Z) (source : Z) :
  id frame = Some ids ->
  assoc "slope" (floats frame) = Some sl ->
  assoc "distance_from_source" (floats frame) = Some dcol ->
  assoc "drainage_areas" (floats frame) = Some acol ->
  exists p,
    select_step frame profile_len (profiles, thinned, fs) source
    = Ok (if qualifies frame profile_len source
          then (profiles ++ [p], append thinned (valid_rows frame source),
                fs ++ [source])
          else (profiles, thinned, fs)).
Proof.
  intros Hid Hsl Hd Ha.
  unfold select_step, get_id, get_col. rewrite Hid. cbn [bind].
  rewrite assoc_select, Hsl. cbn [option_map bind].
  rewrite !assoc_select, Hsl, Hd, Ha. cbn [option_map bind].
  unfold qualifies, valid_samples, valid_rows. rewrite Hid, Hsl.
  rewrite assoc_select, Hsl. cbn [option_map].
  rewrite take_mask_map_filter.
  unfold Py.len at 1. rewrite valid_count_filter. fold (Py.len
    (filter (fun p : Z * cell => (source =? fst p) && negb (isnan (snd p)))
       (combine ids sl))).
  eexists.
  destruct (reaches_min_length _ profile_len); reflexivity.
Qed.

(** The first loop retains, in order, the sources that pass the test. *)
Lemma select_fold_run (frame : DataFrame) (profile_len : Z)
  (ids : list Z) (sl dcol acol : list cell) :
  id frame = Some ids ->
  assoc "slope" (floats frame) = Some sl ->
  assoc "distance_from_source" (floats frame) = Some dcol ->
  assoc "drainage_areas" (floats frame) = Some acol ->
  forall (l : list Z) (profiles : list profile) (thinned : DataFrame) (fs : list Z),
    exists profiles',
      foldM (select_step frame profile_len) l (profiles, thinned, fs)
      = Ok (profiles',
            fold_left append
              (map (valid_rows frame) (filter (qualifies frame profile_len) l))
              thinned,
            fs ++ filter (qualifies frame profile_len) l)
      /\ (List.length profiles = List.length fs ->
          List.length profiles' = List.length (fs ++ filter (qualifies frame profile_len) l)).
Proof.
  intros Hid Hsl Hd Ha. induction l as [|x rest IH]; intros profiles thinned fs.
  - exists profiles. simpl. rewrite app_nil_r. auto.
  - destruct (@select_step_run frame profile_len ids sl dcol acol
                profiles thinned fs x Hid Hsl Hd Ha) as [p Hp].
    cbn [foldM]. rewrite Hp. cbn [bind filter].
    destruct (qualifies frame profile_len x).
    + destruct (IH (profiles ++ [p]) (append thinned (valid_rows frame x)) (fs ++ [x]))
        as (profiles' & Hf & Hlen).
      exists profiles'. cbn [map fold_left]. rewrite Hf. split.
      * now rewrite <- app_assoc.
      * intro E. rewrite <- app_assoc in Hlen. apply Hlen.
        rewrite !length_app, E. reflexivity.
    + apply IH.
Qed.





(** The boundary on integers for [profile_len = 7], where
    [7 / sqrt(2) = 4.95]: five valid samples are enough, four are not. *)
Example min_length_boundary :
  reaches_min_length 5 7 = true /\ reaches_min_length 4 7 = false.
Proof. split; reflexivity. Qed.

Example select_profiles_survey :
  exists profiles thinned,
    select_profiles survey_frame 7 = Ok (profiles, thinned, [7])
    /\ id thinned = Some [7; 7; 7; 7; 7].
Proof. do 2 eexists. split; vm_compute; reflexivity. Qed.

(** ** Rectangular tables stay rectangular *)

Lemma rectangular_empty : rectangular empty_frame.
Proof. split; [discriminate | constructor]. Qed.

Lemma rectangular_select (d : DataFrame) (mask : list bool) :
  rectangular d -> rectangular (select d mask).
Proof.
  intros [Hid Hcols]. split.
  - intros ids H. unfold select in H. cbn [id] in H.
    destruct (id d) as [xs|]; [|discriminate]. injection H as <-.
    cbn [index]. apply take_mask_length. now apply Hid.
  - unfold select. cbn [floats index]. rewrite Forall_map.
    eapply Forall_impl; [|exact Hcols]. intros [k v] H. cbn [snd] in *.
    now apply take_mask_length.
Qed.

Lemma rectangular_valid_rows (frame : DataFrame) (source : Z) :
  rectangular frame -> rectangular (valid_rows frame source).
Proof.
  intro H. unfold valid_rows. destruct (id frame) as [ids|]; [|exact H].
  destruct (assoc "slope" _); repeat apply rectangular_select; exact H.
Qed.

Lemma rectangular_assoc_len (d : DataFrame) (k : string) (xs : list cell) :
  rectangular d -> assoc k (floats d) = Some xs ->
  List.length xs = List.length (index d).
Proof.
  intros [_ Hcols] H. apply assoc_In in H.
  rewrite Forall_forall in Hcols. exact (Hcols _ H).
Qed.

Lemma rectangular_append (d other : DataFrame) :
  rectangular d -> rectangular other -> rectangular (append d other).
Proof.
  intros Hd Ho. split.
  - intros ids H. unfold append in *. cbn [id index] in *.
    rewrite length_app.
    destruct Hd as [Hid1 _], Ho as [Hid2 _].
    destruct (id d) as [a|], (id other) as [b|].
    + injection H as <-. rewrite length_app.
      now rewrite (Hid1 a), (Hid2 b).
    + destruct (Nat.eqb_spec (List.length (index other)) 0) as [E|]; [|discriminate].
      injection H as <-. rewrite (Hid1 a) by reflexivity. lia.
    + destruct (Nat.eqb_spec (List.length (index d)) 0) as [E|]; [|discriminate].
      injection H as <-. rewrite (Hid2 b) by reflexivity. lia.
    + discriminate.
  - unfold append. cbn [floats index]. rewrite Forall_map.
    apply Forall_forall. intros k _. cbn [snd].
    unfold append_col. rewrite !length_app.
    destruct (assoc k (floats d)) as [xs|] eqn:E1;
      destruct (assoc k (floats other)) as [ys|] eqn:E2;
      rewrite ?repeat_length;
      try rewrite (@rectangular_assoc_len d k xs Hd E1);
      try rewrite (@rectangular_assoc_len other k ys Ho E2);
      reflexivity.
Qed.

Lemma rectangular_fold_append (l : list DataFrame) :
  Forall rectangular l ->
  forall d, rectangular d -> rectangular (fold_left append l d).
Proof.
  induction 1 as [|x rest Hx _ IH]; intros d Hd; [exact Hd|].
  cbn [fold_left]. apply IH. now apply rectangular_append.
Qed.

(** ** The ids of the thinned table *)



Lemma filter_all {A} (f : A -> bool) (l : list A) :
  (forall x, In x l -> f x = true) -> filter f l = l.
Proof.
  induction l as [|x r IH]; intro H; simpl; [reflexivity|].
  rewrite (H x) by now left. rewrite IH; [reflexivity|].
  intros y Hy. apply H. now right.
Qed.

Lemma filter_none {A} (f : A -> bool) (l : list A) :
  (forall x, In x l -> f x = false) -> filter f l = [].
Proof.
  induction l as [|x r IH]; intro H; simpl; [reflexivity|].
  rewrite (H x) by now left. apply IH. intros y Hy. apply H. now right.
Qed.



Lemma take_mask_eq_const (a : Z) (ids : list Z) :
  Forall (eq a) (take_mask (map (Z.eqb a) ids) ids).
Proof.
  induction ids as [|x r IH]; simpl; [constructor|].
  destruct (Z.eqb_spec a x); [constructor|]; auto.
Qed.

Lemma take_mask_Forall {A} (P : A -> Prop) (mask : list bool) (xs : list A) :
  Forall P xs -> Forall P (take_mask mask xs).
Proof.
  revert xs. induction mask as [|b m IH]; intros [|x r] H; simpl;
    try constructor.
  inversion H; subst. destruct b; [constructor|]; auto.
Qed.

(** The ids of the rows [valid_rows] keeps: the source, once per valid
    sample. *)
Lemma valid_rows_id (frame : DataFrame) (source : Z)
  (ids : list Z) (sl : list cell) :
  id frame = Some ids ->
  assoc "slope" (floats frame) = Some sl ->
  List.length sl = List.length ids ->
  exists block,
    id (valid_rows frame source) = Some block
    /\ Forall (eq source) block
    /\ Py.len block = valid_samples frame source.
Proof.
  intros Hid Hsl Hlen. unfold valid_rows. rewrite Hid, assoc_select, Hsl.
  cbn [option_map]. unfold select at 1. cbn [id]. unfold select at 1.
  cbn [id]. rewrite Hid. cbn [option_map].
  eexists. split; [reflexivity|]. split.
  - apply take_mask_Forall, take_mask_eq_const.
  - unfold valid_samples. rewrite Hid, Hsl. unfold Py.len. f_equal.
    rewrite <- valid_count_filter, <- take_mask_map_filter.
    apply take_mask_length. apply take_mask_length. congruence.
Qed.

Lemma fold_append_id (l : list DataFrame) :
  (forall x, In x l -> id x <> None) ->
  forall d a, id d = Some a ->
    id (fold_left append l d) = Some (a ++ List.concat (map id_column l)).
Proof.
  induction l as [|x rest IH]; intros Hl d a Hd.
  - simpl. now rewrite app_nil_r.
  - cbn [fold_left map List.concat].
    destruct (id x) as [b|] eqn:Ex; [|exfalso; apply (Hl x); auto; now left].
    rewrite (IH (fun y Hy => Hl y (or_intror Hy)) (append d x) (a ++ b)).
    + unfold id_column at 2. rewrite Ex. now rewrite app_assoc.
    + unfold append. cbn [id]. now rewrite Hd, Ex.
Qed.

Lemma thinned_id (l : list DataFrame) :
  l <> [] -> (forall x, In x l -> id x <> None) ->
  id (fold_left append l empty_frame) = Some (List.concat (map id_column l)).
Proof.
  intros Hne Hl. destruct l as [|x rest]; [congruence|].
  cbn [fold_left map List.concat].
  destruct (id x) as [b|] eqn:Ex; [|exfalso; apply (Hl x); auto; now left].
  rewrite (@fold_append_id rest (fun y Hy => Hl y (or_intror Hy))
             (append empty_frame x) b).
  - unfold id_column at 2. now rewrite Ex.
  - unfold append. cbn. now rewrite Ex.
Qed.



(** ** The label loop of [ClusterProfiles] *)







Lemma nth_combine {A B} (xs : list A) (ys : list B) (k : nat) (x : A) (y : B) :
  nth_error xs k = Some x -> nth_error ys k = Some y ->
  nth_error (combine xs ys) k = Some (x, y).
Proof.
  revert ys k. induction xs as [|a r IH]; intros [|b s] [|k] Hx Hy;
    simpl in *; try discriminate.
  - congruence.
  - now apply IH.
Qed.

Section LabelPass.

Variable cl : list Z.
Variable tids : list Z.

Local Abbreviation cid := "cluster_id"%string.



End LabelPass.



Lemma survey_frame_rectangular : rectangular survey_frame.
Proof.
  split.
  - intros ids H. injection H as <-. reflexivity.
  - repeat constructor.
Qed.

Lemma survey_selection :
  select_profiles survey_frame 1 = Ok (survey_profiles, survey_thinned, [7; 9]).
Proof. vm_compute. reflexivity. Qed.


(** The labelled table of the survey: the five rows of source 7 carry the
    first label, the row of source 9 the second. *)
Example survey_labels :
  exists out,
    nth_error (heap (snd (assign_clusters 0%nat [1; 2]
                            (mkWorld [survey_thinned] [])))) 0 = Some out
    /\ id out = Some [7; 7; 7; 7; 7; 9]
    /\ assoc "cluster_id" (floats out)
       = Some [Num 1; Num 1; Num 1; Num 1; Num 1; Num 2].
Proof. eexists. repeat split; vm_compute; reflexivity. Qed.

(** The positive [profile_len] matters.  With [profile_len = 0] every
    source passes the test, also source 5 that has no valid row; it is
    retained without a row in the thinned table, and the rows of source 7
    then get the label at position 0, which is that of source 5. *)
Example labels_shift_when_profile_len_is_zero :
  (exists profiles,
     select_profiles gap_frame 0 = Ok (profiles, gap_thinned, [5; 7]))
  /\ exists out,
       nth_error (heap (snd (assign_clusters 0%nat [1; 2]
                               (mkWorld [gap_thinned] [])))) 0 = Some out
       /\ id out = Some [7; 7]
       /\ assoc "cluster_id" (floats out) = Some [Num 1; Num 1].
Proof.
  split.
  - eexists. vm_compute. reflexivity.
  - eexists. repeat split; vm_compute; reflexivity.
Qed.

(* ================================================================== *)
(** * Further properties *)

(** ** [find_nearest_idx]: what the index returned is *)

(** The elements before the insertion point are below the value, the
    element at it is not. *)
Lemma searchsorted_prefix (array : list Q) (value : Q) :
  (forall (k : nat) (a : Q),
      Z.of_nat k < searchsorted_left (floats_of array) (Num value) ->
      nth_error array k = Some a -> (a < value)%Q)
  /\ (forall a : Q,
        nth_error array
          (Z.to_nat (searchsorted_left (floats_of array) (Num value))) = Some a ->
        (value <= a)%Q).
Proof.
  induction array as [|h t [IH1 IH2]].
  - split.
    + intros k a _ Ha. destruct k; discriminate.
    + intros a Ha. simpl in Ha. discriminate.
  - cbn [floats_of map searchsorted_left np_lt]. fold (floats_of t).
    destruct (Qlt_bool h value) eqn:E.
    + pose proof (searchsorted_range (floats_of t) (Num value)) as Hr.
      split.
      * intros [|k] a Hk Ha.
        -- simpl in Ha. injection Ha as <-. now apply Qlt_bool_iff.
        -- apply (IH1 k); [lia | exact Ha].
      * intros a Ha.
        replace (Z.to_nat (1 + searchsorted_left (floats_of t) (Num value)))
          with (S (Z.to_nat (searchsorted_left (floats_of t) (Num value))))
          in Ha by lia.
        now apply IH2.
    + split.
      * intros k a Hk. lia.
      * intros a Ha. simpl in Ha. injection Ha as <-.
        apply Qnot_lt_le. intro H. apply Qlt_bool_iff in H. congruence.
Qed.

(** In a sorted array everything from the insertion point on is not below
    the value. *)
Lemma searchsorted_suffix (array : list Q) (value : Q) :
  StronglySorted Qle array ->
  forall (k : nat) (a : Q),
    searchsorted_left (floats_of array) (Num value) <= Z.of_nat k ->
    nth_error array k = Some a -> (value <= a)%Q.
Proof.
  intros Hs k a Hk Ha.
  pose proof (searchsorted_range (floats_of array) (Num value)) as Hr.
  destruct (searchsorted_prefix array value) as [_ Hat].
  set (idx := searchsorted_left (floats_of array) (Num value)) in *.
  assert (Hlt : (k < List.length array)%nat) by (apply nth_error_Some; congruence).
  destruct (nth_error array (Z.to_nat idx)) as [b|] eqn:Eb.
  - apply Qle_trans with (y := b); [now apply Hat|].
    apply (sorted_nth_le Hs (k := Z.to_nat idx) (j := k)); [lia | exact Eb | exact Ha].
  - apply nth_error_None in Eb. lia.
Qed.





Lemma sorted_nth_lt (l : list Q) :
  StronglySorted Qlt l ->
  forall (k j : nat) (a b : Q),
    (k < j)%nat -> nth_error l k = Some a -> nth_error l j = Some b ->
    (a < b)%Q.
Proof.
  induction 1 as [|h t Ht IH Hall]; intros k j a b Hkj Ha Hb.
  - destruct k; discriminate.
  - destruct k as [|k], j as [|j]; simpl in *; try lia.
    + injection Ha as <-. rewrite Forall_forall in Hall.
      apply Hall. eapply nth_error_In; eauto.
    + apply (IH k j a b); [lia | exact Ha | exact Hb].
Qed.

(** X2: in a strictly increasing array the lookup of a sample's own
    distance returns that sample's index. *)
Theorem find_nearest_idx_of_sample :
  forall (array : list Q) (i : nat) (x : Q),
    StronglySorted Qlt array ->
    nth_error array i = Some x ->
    find_nearest_idx (floats_of array) (Num x) = Ok (Z.of_nat i).
Proof.
  intros array i x Hs Hx.
  pose proof (searchsorted_range (floats_of array) (Num x)) as Hr.
  destruct (searchsorted_prefix array x) as [Hbefore Hat].
  unfold find_nearest_idx.
  set (idx := searchsorted_left (floats_of array) (Num x)) in *.
  unfold floats_of in Hr. rewrite len_map in Hr.
  assert (Hi : (i < List.length array)%nat) by (apply nth_error_Some; congruence).
  assert (Hidx : idx = Z.of_nat i).
  { destruct (Z.lt_trichotomy idx (Z.of_nat i)) as [Hlt | [Heq | Hgt]].
    - exfalso.
      destruct (nth_error array (Z.to_nat idx)) as [a|] eqn:Ea.
      + pose proof (Hat a eq_refl) as Hxa.
        assert (a < x)%Q
          by (apply (sorted_nth_lt Hs (k := Z.to_nat idx) (j := i));
              [lia | exact Ea | exact Hx]).
        lra.
      + apply nth_error_None in Ea. lia.
    - exact Heq.
    - exfalso. pose proof (Hbefore i x Hgt Hx). lra. }
  unfold floats_of at 1. rewrite len_map, Hidx.
  destruct (Z.ltb_spec 0 (Z.of_nat i)) as [Hpos|Hz]; [|reflexivity].
  destruct (Z.eqb_spec (Z.of_nat i) (Py.len array)) as [E|_];
    [unfold Py.len in E; lia|].
  destruct i as [|i']; [lia|].
  destruct (nth_error array i') as [b|] eqn:Eb;
    [|apply nth_error_None in Eb; lia].
  replace (Z.of_nat (S i') - 1) with (Z.of_nat i') by lia.
  rewrite (getitem_nth _ _ (floats_of_nth _ _ Eb)).
  rewrite (getitem_nth _ _ (floats_of_nth _ _ Hx)).
  cbn [bind csub fabs cabs cell_ltb].
  assert (Hn : Qlt_bool (Qabs (x - b)) (Qabs (x - x)) = false).
  { destruct (Qlt_bool _ _) eqn:E; [|reflexivity].
    apply Qlt_bool_iff in E. exfalso.
    assert (Hz : (Qabs (x - x) == 0)%Q) by (rewrite Qabs_pos; lra).
    pose proof (Qabs_nonneg (x - b)). rewrite Hz in E. lra. }
  rewrite Hn. reflexivity.
Qed.

Lemma strictly_sorted_0_2_5 : StronglySorted Qlt [0; 2; 5]%Q.
Proof.
  repeat constructor; unfold Qlt; simpl; lia.
Qed.

Lemma find_nearest_idx_of_sample_witness :
  find_nearest_idx (floats_of [0; 2; 5]%Q) (Num 2) = Ok (Z.of_nat 1).
Proof.
  apply (@find_nearest_idx_of_sample [0; 2; 5]%Q 1%nat 2%Q strictly_sorted_0_2_5).
  reflexivity.
Defined.

(** ** [CalculateSlope]: the table it leaves *)

Lemma replace_col_twice (k : string) (v1 v2 : list cell) cols :
  replace_col k v2 (replace_col k v1 cols) = replace_col k v2 cols.
Proof.
  induction cols as [|[k' v'] rest IH]; simpl.
  - now rewrite String.eqb_refl.
  - destruct (String.eqb k k') eqn:E; simpl.
    + now rewrite String.eqb_refl.
    + now rewrite E, IH.
Qed.

Lemma replace_col_same (k : string) (v : list cell) cols :
  assoc k cols = Some v -> replace_col k v cols = cols.
Proof.
  induction cols as [|[k' v'] rest IH]; simpl; [discriminate|].
  destruct (String.eqb k k') eqn:E.
  - apply String.eqb_eq in E. subst k'. intro H. now injection H as ->.
  - intro H. now rewrite IH.
Qed.

Lemma Forall_replace_col (P : string * list cell -> Prop) (k : string)
  (v : list cell) cols :
  Forall P cols -> P (k, v) -> Forall P (replace_col k v cols).
Proof.
  intros Hc Hv. induction Hc as [|[k' v'] rest Hx Hrest IH]; simpl.
  - now constructor.
  - destruct (String.eqb k k'); constructor; assumption.
Qed.

Lemma slope_step_shape (W : Z) (d d1 : DataFrame) (x : Z) :
  slope_step W d x = Ok d1 ->
  index d1 = index d /\ id d1 = id d
  /\ floats d1 = replace_col "slope" (col_or_nan d1 "slope") (floats d).
Proof.
  unfold slope_step.
  destruct (get_col d "distance_from_source"); cbn [bind]; [|discriminate].
  destruct (get_id d); cbn [bind]; [|discriminate].
  destruct (get_col d "elevation"); cbn [bind]; [|discriminate].
  intro H. injection H as <-. repeat split.
  unfold col_or_nan at 1. now rewrite loc_set_col.
Qed.

(** A pass over at least one source leaves the table with its columns as
    they were but for ['slope']. *)
Lemma slope_fold_shape (W : Z) (l : list Z) :
  l <> [] ->
  forall d d',
    foldM (fun acc x => slope_step W acc x) l d = Ok d' ->
    index d' = index d /\ id d' = id d
    /\ floats d' = replace_col "slope" (col_or_nan d' "slope") (floats d).
Proof.
  induction l as [|x rest IH]; intros Hne d d' Hf; [congruence|].
  cbn [foldM] in Hf.
  destruct (slope_step W d x) as [d1|e] eqn:E1; cbn [bind] in Hf; [|discriminate].
  destruct (@slope_step_shape W d d1 x E1) as (I1 & J1 & F1).
  destruct rest as [|y rest'].
  - simpl in Hf. injection Hf as <-. auto.
  - destruct (IH ltac:(discriminate) d1 d' Hf) as (I2 & J2 & F2).
    repeat split; try congruence.
    rewrite F2, F1. apply replace_col_twice.
Qed.

(** A row of a source is among the rows the mask of that source takes. *)
Lemma in_take_mask (ids : list Z) (c : list cell) :
  forall (k : nat) (a : Z) (x : cell),
    nth_error ids k = Some a -> nth_error c k = Some x ->
    In x (take_mask (id_mask ids a) c).
Proof.
  unfold id_mask. revert c.
  induction ids as [|y r IH]; intros [|z c] [|k] a x Ha Hx;
    simpl in *; try discriminate.
  - injection Ha as ->. injection Hx as ->. rewrite Z.eqb_refl. now left.
  - destruct (a =? y); [right|]; now apply (IH c k).
Qed.

(** A column is known once the rows of every source are. *)
Lemma column_determined (ids : list Z) :
  forall c1 c2 : list cell,
    List.length c1 = List.length ids ->
    List.length c2 = List.length ids ->
    (forall a, In a ids ->
       take_mask (id_mask ids a) c1 = take_mask (id_mask ids a) c2) ->
    c1 = c2.
Proof.
  unfold id_mask.
  induction ids as [|x r IH]; intros [|y1 t1] [|y2 t2] L1 L2 H;
    simpl in *; try discriminate; [reflexivity|].
  pose proof (H x (or_introl eq_refl)) as Hx. rewrite Z.eqb_refl in Hx.
  injection Hx as -> Hx. f_equal.
  apply IH; try lia.
  intros a Ha. destruct (Z.eq_dec a x) as [->|Hne]; [exact Hx|].
  specialize (H a (or_intror Ha)).
  destruct (Z.eqb_spec a x); [contradiction | exact H].
Qed.

(** The run of [CalculateSlope] on a table with its columns, with the
    table it leaves written out. *)
Lemma CalculateSlope_run_shape (w : world) (df : ref) (W : Z)
  (frame : DataFrame) (ids : list Z) (dcol ecol : list cell) :
  nth_error (heap w) df = Some frame ->
  rectangular frame ->
  id frame = Some ids ->
  assoc "distance_from_source" (floats frame) = Some dcol ->
  assoc "elevation" (floats frame) = Some ecol ->
  exists frame',
    CalculateSlope df W w
    = (Ok df, mkWorld (set_nth (heap w) df frame') (log w ++ [EvPrint]))
    /\ (ids = [] -> frame' = frame)
    /\ (ids <> [] ->
        exists c,
          frame' = mkDF (index frame) (id frame)
                        (replace_col "slope" c (floats frame))
          /\ List.length c = List.length ids
          /\ forall a, In a ids ->
               take_mask (id_mask ids a) c = source_slopes W ids dcol ecol a).
Proof.
  intros Hnth Hrect Hid Hd He.
  assert (Hinv : slope_inv ids dcol ecol frame).
  { repeat split; try assumption. now apply rectangular_slope_len. }
  destruct (@slope_pass_run W ids dcol ecol
              (@rectangular_col_len frame ids _ dcol Hrect Hid Hd)
              (@rectangular_col_len frame ids _ ecol Hrect Hid He)
              (unique ids) frame Hinv)
    as (frame' & Hfold & Hinv' & _ & _ & Hdone & _).
  exists frame'. split; [|split].
  - pose proof (@for_each_update_fold Z df (fun x d => slope_step W d x)
                  (unique ids) w frame frame' Hnth Hfold) as Hrun.
    cbv beta in Hrun.
    rewrite (@CalculateSlope_unfold w df W frame Hnth).
    unfold get_id. rewrite Hid, Hrun. reflexivity.
  - intros ->. simpl in Hfold. now injection Hfold.
  - intro Hne.
    assert (Hu : unique ids <> []).
    { destruct ids as [|x r]; [congruence | discriminate]. }
    destruct (@slope_fold_shape W (unique ids) Hu frame frame' Hfold) as (HI & HJ & HF).
    exists (col_or_nan frame' "slope"). split; [|split].
    + destruct frame' as [i' j' f']. cbn [index id floats] in *. congruence.
    + apply Hinv'.
    + intros a Ha. apply Hdone; [apply unique_NoDup | now apply unique_In].
Qed.

Lemma column_forall (P : cell -> Prop) (ids : list Z) (c : list cell) :
  List.length c = List.length ids ->
  (forall a, In a ids -> Forall P (take_mask (id_mask ids a) c)) ->
  Forall P c.
Proof.
  intros Hlen H. apply Forall_forall. intros x Hx.
  apply In_nth_error in Hx as [k Hk].
  assert (Hlt : (k < List.length ids)%nat)
    by (rewrite <- Hlen; apply nth_error_Some; congruence).
  destruct (nth_error ids k) as [a|] eqn:Ea;
    [|apply nth_error_None in Ea; lia].
  pose proof (H a (nth_error_In _ _ Ea)) as Hall.
  rewrite Forall_forall in Hall. apply Hall.
  now apply (@in_take_mask ids c k a x).
Qed.

Lemma shaped_frame_rectangular (frame : DataFrame) (ids : list Z) (c : list cell) :
  rectangular frame -> id frame = Some ids ->
  List.length c = List.length ids ->
  rectangular (mkDF (index frame) (id frame)
                    (replace_col "slope" c (floats frame))).
Proof.
  intros [Hi Hc] Hid Hlen. split; cbn [index id floats].
  - exact Hi.
  - apply Forall_replace_col; [exact Hc|]. cbn [snd].
    rewrite Hlen. now apply Hi.
Qed.

Lemma profile_slopes_nonneg (dist elev : list cell) (W : Z) :
  Forall nonneg_or_missing (profile_slopes dist elev W).
Proof.
  apply Forall_forall. intros v Hv. unfold profile_slopes in Hv.
  apply in_map_iff in Hv as (i & <- & _). unfold slope_at.
  destruct (_ =? W); [|exact I].
  destruct (linregress _); simpl; [exact I | apply Qabs_nonneg].
Qed.

(** X3: after [CalculateSlope] the table has a column ['slope'] with one
    entry per row, and every entry is missing or not negative: the sign of
    the gradient is dropped.  The window size is not zero: with zero the
    regression would be asked for the gradient of no point at all. *)
Theorem CalculateSlope_slopes_nonnegative :
  forall (w : world) (df : ref) (W : Z) (frame : DataFrame) (ids : list Z)
         (dcol ecol : list cell),
    nth_error (heap w) df = Some frame ->
    rectangular frame ->
    id frame = Some ids ->
    assoc "distance_from_source" (floats frame) = Some dcol ->
    assoc "elevation" (floats frame) = Some ecol ->
    ids <> [] ->
    W <> 0 ->
    exists frame' sl,
      CalculateSlope df W w
      = (Ok df, mkWorld (set_nth (heap w) df frame') (log w ++ [EvPrint]))
      /\ rectangular frame'
      /\ assoc "slope" (floats frame') = Some sl
      /\ List.length sl = List.length (index frame')
      /\ Forall nonneg_or_missing sl.
Proof.
  intros w df W frame ids dcol ecol Hnth Hrect Hid Hd He Hne _.
  destruct (@CalculateSlope_run_shape w df W frame ids dcol ecol
              Hnth Hrect Hid Hd He) as (frame' & Hrun & _ & Hshape).
  destruct (Hshape Hne) as (c & -> & Hlen & Hrows).
  exists (mkDF (index frame) (id frame) (replace_col "slope" c (floats frame))), c.
  split; [exact Hrun|]. split; [now apply shaped_frame_rectangular with (ids := ids)|].
  split; [apply assoc_replace_eq|]. split.
  - cbn [index]. rewrite Hlen. destruct Hrect as [Hi _]. now apply Hi.
  - apply (@column_forall _ ids c Hlen). intros a Ha. rewrite (Hrows a Ha).
    apply profile_slopes_nonneg.
Qed.

Lemma CalculateSlope_slopes_nonnegative_witness :
  exists frame' sl,
    CalculateSlope 0%nat 5 line_world
    = (Ok 0%nat, mkWorld (set_nth (heap line_world) 0 frame')
                   (log line_world ++ [EvPrint]))
    /\ rectangular frame'
    /\ assoc "slope" (floats frame') = Some sl
    /\ List.length sl = List.length (index frame')
    /\ Forall nonneg_or_missing sl.
Proof.
  apply (@CalculateSlope_slopes_nonnegative line_world 0%nat 5 line_frame
           [7; 7; 7; 7; 7; 7; 7]
           (floats_of [0; 1; 2; 3; 4; 5; 6]%Q)
           (floats_of [20; 18; 16; 14; 12; 10; 8]%Q)).
  - reflexivity.
  - exact line_frame_rectangular.
  - reflexivity.
  - reflexivity.
  - reflexivity.
  - discriminate.
  - lia.
Defined.

Lemma slope_at_negative (pts : list (cell * cell)) (W i : Z) :
  W < 0 -> slope_at pts W i = NaN.
Proof.
  intro H. unfold slope_at.
  destruct (Z.eqb_spec
              (Py.len (Py.slice pts (i - (W - 1) / 2) (i + (W - 1) / 2 + 1))) W)
    as [E|_]; [|reflexivity].
  pose proof (len_nonneg (Py.slice pts (i - (W - 1) / 2) (i + (W - 1) / 2 + 1))).
  lia.
Qed.

Lemma profile_slopes_not_odd (dist elev : list cell) (W : Z) :
  (0 < W /\ Z.even W = true) \/ W < 0 ->
  Forall (eq NaN) (profile_slopes dist elev W).
Proof.
  intros [[Hpos Hev] | Hneg].
  - now apply CalculateSlope_even_missing.
  - apply Forall_forall. intros v Hv. unfold profile_slopes in Hv.
    apply in_map_iff in Hv as (i & <- & _). symmetry.
    now apply slope_at_negative.
Qed.

(** X4: with an even window size, and with a negative one, [CalculateSlope]
    fills the whole column ['slope'] with missing values: every profile of
    the table loses all its slopes. *)
Theorem CalculateSlope_window_not_odd :
  forall (w : world) (df : ref) (W : Z) (frame : DataFrame) (ids : list Z)
         (dcol ecol : list cell),
    nth_error (heap w) df = Some frame ->
    rectangular frame ->
    id frame = Some ids ->
    assoc "distance_from_source" (floats frame) = Some dcol ->
    assoc "elevation" (floats frame) = Some ecol ->
    ids <> [] ->
    (0 < W /\ Z.even W = true) \/ W < 0 ->
    exists frame' sl,
      CalculateSlope df W w
      = (Ok df, mkWorld (set_nth (heap w) df frame') (log w ++ [EvPrint]))
      /\ assoc "slope" (floats frame') = Some sl
      /\ List.length sl = List.length ids
      /\ Forall (eq NaN) sl.
Proof.
  intros w df W frame ids dcol ecol Hnth Hrect Hid Hd He Hne HW.
  destruct (@CalculateSlope_run_shape w df W frame ids dcol ecol
              Hnth Hrect Hid Hd He) as (frame' & Hrun & _ & Hshape).
  destruct (Hshape Hne) as (c & -> & Hlen & Hrows).
  exists (mkDF (index frame) (id frame) (replace_col "slope" c (floats frame))), c.
  split; [exact Hrun|]. split; [apply assoc_replace_eq|]. split; [exact Hlen|].
  apply (@column_forall _ ids c Hlen). intros a Ha. rewrite (Hrows a Ha).
  now apply profile_slopes_not_odd.
Qed.

Lemma CalculateSlope_window_not_odd_witness :
  exists frame' sl,
    CalculateSlope 0%nat 4 line_world
    = (Ok 0%nat, mkWorld (set_nth (heap line_world) 0 frame')
                   (log line_world ++ [EvPrint]))
    /\ assoc "slope" (floats frame') = Some sl
    /\ List.length sl = List.length [7; 7; 7; 7; 7; 7; 7]
    /\ Forall (eq NaN) sl.
Proof.
  apply (@CalculateSlope_window_not_odd line_world 0%nat 4 line_frame
           [7; 7; 7; 7; 7; 7; 7]
           (floats_of [0; 1; 2; 3; 4; 5; 6]%Q)
           (floats_of [20; 18; 16; 14; 12; 10; 8]%Q)).
  - reflexivity.
  - exact line_frame_rectangular.
  - reflexivity.
  - reflexivity.
  - reflexivity.
  - discriminate.
  - left. split; [lia | reflexivity].
Defined.

(** X5: [CalculateSlope] is idempotent: a second run with the same
    window size, zero apart, on the table the first run left changes
    nothing in the store. *)
Theorem CalculateSlope_idempotent :
  forall (w : world) (df : ref) (W : Z) (frame : DataFrame) (ids : list Z)
         (dcol ecol : list cell),
    nth_error (heap w) df = Some frame ->
    rectangular frame ->
    id frame = Some ids ->
    assoc "distance_from_source" (floats frame) = Some dcol ->
    assoc "elevation" (floats frame) = Some ecol ->
    W <> 0 ->
    fst (CalculateSlope df W w) = Ok df
    /\ CalculateSlope df W (snd (CalculateSlope df W w))
       = (Ok df, mkWorld (heap (snd (CalculateSlope df W w)))
                   (log (snd (CalculateSlope df W w)) ++ [EvPrint])).
Proof.
  intros w df W frame ids dcol ecol Hnth Hrect Hid Hd He _.
  assert (Hlt : (df < List.length (heap w))%nat)
    by (apply nth_error_Some; congruence).
  destruct (@CalculateSlope_run_shape w df W frame ids dcol ecol
              Hnth Hrect Hid Hd He) as (frame1 & Hrun1 & Hnil1 & Hshape1).
  rewrite Hrun1. cbn [fst snd heap log]. split; [reflexivity|].
  set (w1 := mkWorld (set_nth (heap w) df frame1) (log w ++ [EvPrint])).
  assert (Hnth1 : nth_error (heap w1) df = Some frame1)
    by (now apply nth_set_nth_eq).
  assert (Hfacts : rectangular frame1 /\ id frame1 = Some ids
                   /\ assoc "distance_from_source" (floats frame1) = Some dcol
                   /\ assoc "elevation" (floats frame1) = Some ecol).
  { destruct ids as [|x r].
    - rewrite (Hnil1 eq_refl). auto.
    - destruct (Hshape1 ltac:(discriminate)) as (c1 & -> & Hlen1 & _).
      split; [now apply shaped_frame_rectangular with (ids := x :: r)|].
      cbn [id floats]. rewrite !assoc_replace_neq by reflexivity. auto. }
  destruct Hfacts as (Hrect1 & Hid1 & Hd1 & He1).
  destruct (@CalculateSlope_run_shape w1 df W frame1 ids dcol ecol
              Hnth1 Hrect1 Hid1 Hd1 He1) as (frame2 & Hrun2 & Hnil2 & Hshape2).
  rewrite Hrun2. f_equal. f_equal.
  assert (Heq : frame2 = frame1).
  { destruct ids as [|x r].
    - now apply Hnil2.
    - destruct (Hshape1 ltac:(discriminate)) as (c1 & E1 & Hlen1 & Hrows1).
      destruct (Hshape2 ltac:(discriminate)) as (c2 & E2 & Hlen2 & Hrows2).
      rewrite E2, E1. cbn [index id floats]. rewrite replace_col_twice.
      f_equal. f_equal. apply (@column_determined (x :: r)); try assumption.
      intros a Ha. now rewrite Hrows1, Hrows2. }
  rewrite Heq. now apply set_nth_same.
Qed.

Lemma CalculateSlope_idempotent_witness :
  fst (CalculateSlope 0%nat 5 line_world) = Ok 0%nat
  /\ CalculateSlope 0%nat 5 (snd (CalculateSlope 0%nat 5 line_world))
     = (Ok 0%nat, mkWorld (heap (snd (CalculateSlope 0%nat 5 line_world)))
                    (log (snd (CalculateSlope 0%nat 5 line_world)) ++ [EvPrint])).
Proof.
  apply (@CalculateSlope_idempotent line_world 0%nat 5 line_frame
           [7; 7; 7; 7; 7; 7; 7]
           (floats_of [0; 1; 2; 3; 4; 5; 6]%Q)
           (floats_of [20; 18; 16; 14; 12; 10; 8]%Q)).
  - reflexivity.
  - exact line_frame_rectangular.
  - reflexivity.
  - reflexivity.
  - reflexivity.
  - lia.
Defined.

(** ** [CalculateSlope]: tables it cannot read *)

Lemma unique_cons_inv (ids : list Z) :
  ids <> [] -> exists x rest, unique ids = x :: rest.
Proof.
  destruct ids as [|x r]; [congruence|]. intros _. cbn [unique]. eauto.
Qed.

(** X6: [CalculateSlope] on a table it cannot read.  Without the column
    ['id'] it raises [KeyError('id')]; with rows but without the column
    ['distance_from_source'], or with it but without ['elevation'], it
    raises the [KeyError] of that column at the first source; in each case
    nothing was written or printed.  A table with the column ['id'] and no
    row needs no other column: the loop has nothing to do and the table is
    returned as it is. *)
Theorem CalculateSlope_unreadable_table :
  forall (w : world) (df : ref) (W : Z) (frame : DataFrame),
    nth_error (heap w) df = Some frame ->
    (id frame = None -> CalculateSlope df W w = (Raise (KeyError "id"), w))
    /\ (forall ids, id frame = Some ids -> ids <> [] ->
          assoc "distance_from_source" (floats frame) = None ->
          CalculateSlope df W w = (Raise (KeyError "distance_from_source"), w))
    /\ (forall ids, id frame = Some ids -> ids <> [] ->
          assoc "distance_from_source" (floats frame) <> None ->
          assoc "elevation" (floats frame) = None ->
          CalculateSlope df W w = (Raise (KeyError "elevation"), w))
    /\ (id frame = Some [] ->
          CalculateSlope df W w
          = (Ok df, mkWorld (heap w) (log w ++ [EvPrint]))).
Proof.
  intros w df W frame Hnth.
  rewrite (@CalculateSlope_unfold w df W frame Hnth). unfold get_id.
  split; [|split; [|split]].
  - intros ->. reflexivity.
  - intros ids -> Hne Hd.
    destruct (unique_cons_inv Hne) as (x & rest & ->).
    cbn [for_each]. unfold mbind at 1. unfold update, mbind, load, lift.
    rewrite Hnth. unfold slope_step, get_col. rewrite Hd. reflexivity.
  - intros ids Hid Hne Hd He. rewrite Hid.
    destruct (unique_cons_inv Hne) as (x & rest & ->).
    cbn [for_each]. unfold mbind at 1. unfold update, mbind, load, lift.
    rewrite Hnth. unfold slope_step, get_col, get_id. rewrite Hid, He.
    destruct (assoc "distance_from_source" (floats frame)); [|congruence].
    reflexivity.
  - intros ->. reflexivity.
Qed.

Lemma CalculateSlope_unreadable_table_witness :
  (id bare_frame = None ->
   CalculateSlope 0%nat 5 bare_world = (Raise (KeyError "id"), bare_world))
  /\ (forall ids, id bare_frame = Some ids -> ids <> [] ->
        assoc "distance_from_source" (floats bare_frame) = None ->
        CalculateSlope 0%nat 5 bare_world
        = (Raise (KeyError "distance_from_source"), bare_world))
  /\ (forall ids, id bare_frame = Some ids -> ids <> [] ->
        assoc "distance_from_source" (floats bare_frame) <> None ->
        assoc "elevation" (floats bare_frame) = None ->
        CalculateSlope 0%nat 5 bare_world
        = (Raise (KeyError "elevation"), bare_world))
  /\ (id bare_frame = Some [] ->
        CalculateSlope 0%nat 5 bare_world
        = (Ok 0%nat, mkWorld (heap bare_world) (log bare_world ++ [EvPrint]))).
Proof.
  apply (@CalculateSlope_unreadable_table bare_world 0%nat 5 bare_frame).
  reflexivity.
Defined.

(** ** [ResampleProfiles]: when it returns *)

Lemma ResampleProfiles_fst (w : world) (df : ref) (profile_len step : Z)
  (frame : DataFrame) :
  nth_error (heap w) df = Some frame ->
  ResampleProfiles df profile_len step w
  = match resample frame profile_len step with
    | Ok (t, d, f) =>
        (Ok (List.length (heap w), d, f),
         mkWorld (heap w ++ [t]) (log w ++ [EvResample]))
    | Raise e => (Raise e, mkWorld (heap w) (log w ++ [EvResample]))
    end.
Proof.
  intro Hnth. unfold ResampleProfiles, mbind, emit, load, lift, alloc, ret.
  cbn [heap log]. rewrite Hnth.
  destruct (resample frame profile_len step) as [[[t d] f]|e]; reflexivity.
Qed.


Lemma arange_ok (start stop step : Z) :
  step <> 0 -> exists rd, Py.arange start stop step = Ok rd.
Proof.
  intro H. unfold Py.arange. destruct (Z.eqb_spec step 0); [contradiction|].
  destruct (0 <? step); eauto.
Qed.



(** X8: a table with rows whose area column is not called
    ['drainage_areas'] stops [ResampleProfiles] at its first source with
    [KeyError('drainage_areas')], whatever the profile length and for every
    step but zero; a table with rows and no column ['slope'] stops it in
    the same way with [KeyError('slope')].  No object of the store is
    written or added. *)
Theorem ResampleProfiles_missing_column :
  forall (w : world) (df : ref) (profile_len step : Z) (frame : DataFrame)
         (ids : list Z),
    nth_error (heap w) df = Some frame ->
    id frame = Some ids ->
    ids <> [] ->
    step <> 0 ->
    (assoc "slope" (floats frame) = None ->
     ResampleProfiles df profile_len step w
     = (Raise (KeyError "slope"), mkWorld (heap w) (log w ++ [EvResample])))
    /\ (assoc "slope" (floats frame) <> None ->
        assoc "distance_from_source" (floats frame) <> None ->
        assoc "drainage_areas" (floats frame) = None ->
        ResampleProfiles df profile_len step w
        = (Raise (KeyError "drainage_areas"),
           mkWorld (heap w) (log w ++ [EvResample]))).
Proof.
  intros w df L step frame ids Hnth Hid Hne Hstep.
  rewrite (@ResampleProfiles_fst w df L step frame Hnth).
  unfold resample. destruct (arange_ok 0 L Hstep) as [rd ->]. cbn [bind].
  unfold select_profiles, get_id. rewrite Hid. cbn [bind].
  destruct (unique_cons_inv Hne) as (x & rest & ->). cbn [foldM].
  unfold select_step, get_id, get_col. rewrite Hid. cbn [bind].
  split.
  - intro Hsl. rewrite assoc_select, Hsl. reflexivity.
  - intros Hsl Hd Ha.
    destruct (assoc "slope" (floats frame)) as [sl|] eqn:Esl; [|congruence].
    destruct (assoc "distance_from_source" (floats frame)) as [dc|] eqn:Ed;
      [|congruence].
    rewrite assoc_select, Esl. cbn [option_map bind].
    rewrite !assoc_select, Esl, Ed, Ha. reflexivity.
Qed.

Lemma ResampleProfiles_missing_column_witness :
  (assoc "slope" (floats survey_frame_area) = None ->
   ResampleProfiles 0%nat 7 1 (mkWorld [survey_frame_area] [])
   = (Raise (KeyError "slope"), mkWorld [survey_frame_area] ([] ++ [EvResample])))
  /\ (assoc "slope" (floats survey_frame_area) <> None ->
      assoc "distance_from_source" (floats survey_frame_area) <> None ->
      assoc "drainage_areas" (floats survey_frame_area) = None ->
      ResampleProfiles 0%nat 7 1 (mkWorld [survey_frame_area] [])
      = (Raise (KeyError "drainage_areas"),
         mkWorld [survey_frame_area] ([] ++ [EvResample]))).
Proof.
  apply (@ResampleProfiles_missing_column (mkWorld [survey_frame_area] [])
           0%nat 7 1 survey_frame_area [7; 7; 7; 7; 7; 7; 7; 9; 9; 9]).
  - reflexivity.
  - reflexivity.
  - discriminate.
  - lia.
Defined.

(** ** [ClusterProfiles]: the run as a whole *)

Lemma ClusterProfiles_unfold (X : Externals) (df : ref)
  (profile_len step : Z) (min_corr : cell) (method : string) (w : world) :
  ClusterProfiles X df profile_len step min_corr method w
  = match ResampleProfiles df profile_len step
            (mkWorld (heap w) (log w ++ [EvPrint])) with
    | (Ok out, w1) => cluster_resampled X out min_corr method w1
    | (Raise e, w1) => (Raise e, w1)
    end.
Proof. reflexivity. Qed.

(** After a resampling that returned, the rest of the run raises and
    writes nothing. *)
Lemma cluster_resampled_on_empty (X : Externals) (min_corr : cell)
  (method : string) (h : list DataFrame) (w1 : world) :
  heap w1 = h ++ [empty_frame] ->
  exists e w2,
    cluster_resampled X (List.length h, [], []) min_corr method w1
    = (Raise e, w2)
    /\ heap w2 = heap w1.
Proof.
  intro Hheap.
  unfold cluster_resampled, mbind, emit, lift. cbn [heap log].
  destruct (Pearson X []) as [cc|e]; [|eauto].
  destruct (linkage X _ method) as [ln|e]; [|eauto].
  destruct (fcluster X ln _) as [cl|e]; [|eauto].
  destruct (array_max cl) as [top|e]; [|eauto].
  unfold assign_clusters, mbind, load, lift. cbn [heap log].
  rewrite Hheap, nth_error_app2, Nat.sub_diag by lia. cbn [nth_error].
  rewrite get_id_empty_frame. eauto.
Qed.

(** X9: [ClusterProfiles] raises on every table, for every parameter and
    whatever the libraries return, and no table of the store has been
    written when it does: the store is as before, or has one more table,
    the empty one [ResampleProfiles] created.  No column ['cluster_id'] is
    ever written by a run of the function. *)
Theorem ClusterProfiles_always_raises :
  forall (X : Externals) (df : ref) (profile_len step : Z) (min_corr : cell)
         (method : string) (w : world),
    exists e,
      fst (ClusterProfiles X df profile_len step min_corr method w) = Raise e
      /\ (heap (snd (ClusterProfiles X df profile_len step min_corr method w))
          = heap w
          \/ heap (snd (ClusterProfiles X df profile_len step min_corr method w))
             = heap w ++ [empty_frame]).
Proof.
  intros X df L step mc method w.
  rewrite ClusterProfiles_unfold.
  pose proof (ResampleProfiles_run
                {| heap := heap w; log := log w ++ [EvPrint] |} df L step)
    as [_ Hrun].
  destruct (ResampleProfiles df L step _) as [[[[t d] f]|e] w1];
    cbn [fst snd heap] in *.
  - destruct Hrun as (-> & Hheap & -> & ->).
    destruct (@cluster_resampled_on_empty X mc method (heap w) w1 Hheap)
      as (e & w2 & He & Hw2).
    cbv beta iota. unfold ref in *. rewrite He.
    exists e. cbn [fst snd]. split; [reflexivity|]. right. congruence.
  - exists e. split; [reflexivity | now left].
Qed.

(** ** The label loop: how many labels it needs *)

Lemma getitem_past_end {A} (l : list A) (n : nat) :
  (List.length l <= n)%nat -> Py.getitem l (Z.of_nat n) = Raise IndexError.
Proof.
  intro H. unfold Py.getitem, Py.len.
  destruct (Z.ltb_spec (Z.of_nat n) 0); [lia|].
  destruct (Z.ltb_spec (Z.of_nat n) (Z.of_nat (List.length l))); [lia|].
  now rewrite andb_false_r.
Qed.

(** A loop of updates of one object stops at the first pass that raises. *)
Lemma for_each_update_fold_raise {A} (r : ref)
  (g : A -> DataFrame -> result DataFrame) (xs : list A) :
  forall (w : world) (d : DataFrame) (e : exn),
    nth_error (heap w) r = Some d ->
    foldM (fun acc x => g x acc) xs d = Raise e ->
    fst (for_each xs (fun x => update r (g x)) w) = Raise e.
Proof.
  induction xs as [|x rest IH]; intros w d e Hd Hf.
  - discriminate Hf.
  - cbn [foldM bind] in Hf. cbn [for_each]. unfold mbind at 1.
    destruct (g x d) as [d1|e1] eqn:Eg.
    + assert (Hu : update r (g x) w
                   = (Ok tt, mkWorld (set_nth (heap w) r d1) (log w))).
      { unfold update, mbind, load, lift, store. now rewrite Hd, Eg. }
      assert (Hlt : (r < List.length (heap w))%nat)
        by (apply nth_error_Some; congruence).
      rewrite Hu. apply (IH _ d1 e); [|exact Hf].
      simpl. now apply nth_set_nth_eq.
    + simpl in Hf. injection Hf as ->.
      unfold update, mbind, load, lift. now rewrite Hd, Eg.
Qed.

Lemma cluster_fold_outcome (cl tids : list Z) (xs : list Z) :
  forall (start : nat) (d : DataFrame),
    id d = Some tids ->
    ((start + List.length xs <= List.length cl)%nat ->
     exists d',
       foldM (fun acc x => cluster_step cl x acc)
         (combine (map Z.of_nat (seq start (List.length xs))) xs) d = Ok d')
    /\ ((start <= List.length cl < start + List.length xs)%nat ->
        foldM (fun acc x => cluster_step cl x acc)
          (combine (map Z.of_nat (seq start (List.length xs))) xs) d
        = Raise IndexError).
Proof.
  induction xs as [|a rest IH]; intros start d Hid.
  - split; [intros _; exists d; reflexivity | simpl; lia].
  - cbn [List.length seq map combine foldM].
    destruct (Nat.lt_ge_cases start (List.length cl)) as [Hlt|Hge].
    + destruct (nth_error cl start) as [c|] eqn:Ec;
        [|apply nth_error_None in Ec; lia].
      assert (Hstep : cluster_step cl (Z.of_nat start, a) d
                      = Ok (loc_set_scalar d (map (Z.eqb a) tids) "cluster_id"
                              (Num (inject_Z c)))).
      { unfold cluster_step, get_id. rewrite (getitem_nth _ _ Ec), Hid.
        reflexivity. }
      rewrite Hstep. cbn [bind].
      destruct (IH (S start) (loc_set_scalar d (map (Z.eqb a) tids) "cluster_id"
                                (Num (inject_Z c))) Hid) as [Hok Hraise].
      split; intro H; [apply Hok | apply Hraise]; lia.
    + assert (Hstep : cluster_step cl (Z.of_nat start, a) d = Raise IndexError).
      { unfold cluster_step. now rewrite (getitem_past_end _ Hge). }
      rewrite Hstep. cbn [bind]. split; [lia | reflexivity].
Qed.

(** X10: the label loop at the end of [ClusterProfiles] needs one label
    per source of the table: with at least as many labels as sources it
    returns the table it was given, with fewer it raises [IndexError] at
    the first source without a label. *)
Theorem assign_clusters_label_count :
  forall (w : world) (t : ref) (cl : list Z) (d : DataFrame) (tids : list Z),
    nth_error (heap w) t = Some d ->
    id d = Some tids ->
    (fst (assign_clusters t cl w) = Ok t
     <-> (List.length (unique tids) <= List.length cl)%nat)
    /\ ((List.length cl < List.length (unique tids))%nat ->
        fst (assign_clusters t cl w) = Raise IndexError).
Proof.
  intros w t cl d tids Hnth Hid.
  rewrite (@assign_clusters_unfold w t cl d Hnth). unfold get_id. rewrite Hid.
  unfold enumerate, Py.range, Py.len. rewrite Nat2Z.id.
  destruct (@cluster_fold_outcome cl tids (unique tids) 0%nat d Hid)
    as [Hok Hraise].
  assert (Hshort : (List.length cl < List.length (unique tids))%nat ->
            fst (let (r, w1) :=
                   for_each
                     (combine (map Z.of_nat (seq 0 (List.length (unique tids))))
                        (unique tids))
                     (fun x => update t (cluster_step cl x))
                     (mkWorld (heap w) (log w ++ [EvPlot])) in
                 match r with
                 | Ok _ => (Ok t, w1)
                 | Raise e => (Raise e, w1)
                 end) = Raise IndexError).
  { intro Hlt.
    pose proof (@for_each_update_fold_raise _ t (cluster_step cl) _
                  (mkWorld (heap w) (log w ++ [EvPlot])) d IndexError Hnth
                  (Hraise ltac:(lia))) as Hr.
    destruct (for_each _ _ _) as [[u|e] w1]; cbn [fst] in *; congruence. }
  split; [split|exact Hshort].
  - intro H.
    destruct (Nat.le_gt_cases (List.length (unique tids)) (List.length cl))
      as [Hle|Hgt]; [exact Hle|].
    rewrite (Hshort Hgt) in H. discriminate H.
  - intro Hle. destruct (Hok ltac:(lia)) as [d' Hd'].
    rewrite (@for_each_update_fold _ t (cluster_step cl) _
               (mkWorld (heap w) (log w ++ [EvPlot])) d d' Hnth Hd').
    reflexivity.
Qed.

Lemma assign_clusters_label_count_witness :
  (fst (assign_clusters 0%nat [1] (mkWorld [survey_thinned] [])) = Ok 0%nat
   <-> (List.length (unique [7; 7; 7; 7; 7; 9]%Z) <= List.length [1%Z])%nat)
  /\ ((List.length [1%Z] < List.length (unique [7; 7; 7; 7; 7; 9]%Z))%nat ->
      fst (assign_clusters 0%nat [1] (mkWorld [survey_thinned] []))
      = Raise IndexError).
Proof.
  apply (@assign_clusters_label_count (mkWorld [survey_thinned] []) 0%nat [1]
           survey_thinned [7; 7; 7; 7; 7; 9]).
  - reflexivity.
  - reflexivity.
Defined.

(** ** From [CalculateSlope] to the minimum length of [ResampleProfiles] *)

Lemma Qsum_nonneg (xs : list Q) :
  Forall (fun x => (0 <= x)%Q) xs -> (0 <= Qsum xs)%Q.
Proof.
  induction 1 as [|x r Hx _ IH]; [apply Qle_refl|].
  change (Qsum (x :: r)) with (x + Qsum r)%Q. lra.
Qed.

Lemma Qsum_zero_all (xs : list Q) :
  Forall (fun x => (0 <= x)%Q) xs -> (Qsum xs == 0)%Q ->
  Forall (fun x => (x == 0)%Q) xs.
Proof.
  induction 1 as [|x r Hx Hr IH]; intro H; [constructor|].
  change (Qsum (x :: r)) with (x + Qsum r)%Q in H.
  pose proof (Qsum_nonneg Hr) as Hs.
  constructor; [lra | apply IH; lra].
Qed.

(** The regression has a gradient as soon as the points are numbers and
    two of them differ in their abscissa. *)
Lemma linregress_defined (pts : list (cell * cell)) (qs : list (Q * Q))
  (p1 p2 : Q * Q) :
  numeric pts = Some qs -> In p1 qs -> In p2 qs ->
  ~ (fst p1 == fst p2)%Q ->
  exists q, linregress pts = Num q.
Proof.
  intros Hn H1 H2 Hne. unfold linregress. rewrite Hn. cbv zeta.
  assert (Hn0 : ~ (inject_Z (Py.len qs) == 0)%Q).
  { apply len_pos_inject. intro E. rewrite E in H1. destruct H1. }
  set (n := inject_Z (Py.len qs)) in *.
  set (m := (Qsum (map fst qs) / n)%Q).
  set (s := Qsum (map (fun p => (fst p - m) * (fst p - m))%Q qs)).
  destruct (Qeq_bool (s / n) 0) eqn:E; [|eauto].
  exfalso. apply Qeq_bool_iff in E.
  assert (Hs : (s == 0)%Q).
  { assert (Hsn : (s == (s / n) * n)%Q) by (field; exact Hn0).
    rewrite Hsn, E. ring. }
  subst s. apply Qsum_zero_all in Hs.
  - rewrite Forall_forall in Hs.
    assert (Hsq : forall p, In p qs -> (fst p == m)%Q).
    { intros p Hp.
      assert (Hz : ((fst p - m) * (fst p - m) == 0)%Q).
      { apply Hs. apply in_map_iff. exists p. auto. }
      apply Qmult_integral in Hz. destruct Hz; lra. }
    apply Hne. rewrite (Hsq p1 H1), (Hsq p2 H2). reflexivity.
  - apply Forall_forall. intros x Hx. apply in_map_iff in Hx as (p & <- & _).
    generalize (fst p - m)%Q. intro t. clear.
    destruct (Qlt_le_dec t 0) as [Hneg|Hpos].
    + assert (Ht : (t * t == (- t) * (- t))%Q) by ring.
      rewrite Ht. apply Qmult_le_0_compat; lra.
    + now apply Qmult_le_0_compat.
Qed.

Lemma numeric_floats (d e : list Q) :
  numeric (combine (floats_of d) (floats_of e)) = Some (combine d e).
Proof.
  revert e. induction d as [|x d IH]; intros [|y e]; simpl; try reflexivity.
  unfold floats_of in IH. now rewrite IH.
Qed.

Lemma numeric_firstn (k : nat) :
  forall pts qs, numeric pts = Some qs ->
    numeric (firstn k pts) = Some (firstn k qs).
Proof.
  induction k as [|k IH]; intros pts qs H; [reflexivity|].
  destruct pts as [|[[|x] [|y]] r]; simpl in H; try discriminate H.
  - injection H as <-. reflexivity.
  - destruct (numeric r) as [qr|] eqn:E; [|discriminate H].
    injection H as <-. simpl. now rewrite (IH r qr E).
Qed.

Lemma numeric_skipn (k : nat) :
  forall pts qs, numeric pts = Some qs ->
    numeric (skipn k pts) = Some (skipn k qs).
Proof.
  induction k as [|k IH]; intros pts qs H; [exact H|].
  destruct pts as [|[[|x] [|y]] r]; simpl in H; try discriminate H.
  - injection H as <-. reflexivity.
  - destruct (numeric r) as [qr|] eqn:E; [|discriminate H].
    injection H as <-. simpl. now apply IH.
Qed.

(** Away from the ends of a profile of numbers with increasing distances
    the slope is a number. *)
Lemma slope_at_interior_defined (d e : list Q) (W i : Z) :
  List.length d = List.length e ->
  StronglySorted Qlt d ->
  3 <= W -> Z.odd W = true ->
  0 <= i - (W - 1) / 2 -> i + (W - 1) / 2 <= Py.len d - 1 ->
  isnan (slope_at (combine (floats_of d) (floats_of e)) W i) = false.
Proof.
  intros Hlen Hsorted HW Hodd Hlo Hhi.
  pose proof (odd_half W Hodd) as Hhalf.
  assert (Hpts : Py.len (combine (floats_of d) (floats_of e)) = Py.len d).
  { unfold Py.len, floats_of. rewrite length_combine, !length_map. lia. }
  rewrite slope_at_interior; [|lia|exact Hodd|exact Hlo|lia].
  unfold window_pairs.
  set (s := (W - 1) / 2) in *.
  set (lo := Z.to_nat (i - s)).
  set (cnt := Z.to_nat (i + s - (i - s) + 1)).
  pose proof (@numeric_firstn cnt _ _
                (@numeric_skipn lo _ _ (numeric_floats d e))) as Hnum.
  unfold Py.len in Hhi.
  assert (Hlo_lt : (S lo < List.length d)%nat) by (subst lo; lia).
  destruct (nth_error d lo) as [x0|] eqn:Ex0;
    [|apply nth_error_None in Ex0; lia].
  destruct (nth_error d (S lo)) as [x1|] eqn:Ex1;
    [|apply nth_error_None in Ex1; lia].
  destruct (nth_error e lo) as [y0|] eqn:Ey0;
    [|apply nth_error_None in Ey0; lia].
  destruct (nth_error e (S lo)) as [y1|] eqn:Ey1;
    [|apply nth_error_None in Ey1; lia].
  assert (Hcnt : (2 <= cnt)%nat) by (subst cnt; lia).
  assert (H0 : nth_error (firstn cnt (skipn lo (combine d e))) 0 = Some (x0, y0)).
  { rewrite nth_error_firstn.
    destruct (Nat.ltb_spec 0 cnt); [|lia].
    rewrite nth_error_skipn, Nat.add_0_r. now apply nth_combine. }
  assert (H1 : nth_error (firstn cnt (skipn lo (combine d e))) 1 = Some (x1, y1)).
  { rewrite nth_error_firstn.
    destruct (Nat.ltb_spec 1 cnt); [|lia].
    rewrite nth_error_skipn, Nat.add_1_r. now apply nth_combine. }
  destruct (@linregress_defined _ _ (x0, y0) (x1, y1) Hnum
              (nth_error_In _ _ H0) (nth_error_In _ _ H1)) as [q Hq].
  - cbn [fst]. intro Heq.
    pose proof (@sorted_nth_lt d Hsorted lo (S lo) x0 x1 ltac:(lia) Ex0 Ex1).
    lra.
  - rewrite Hq. reflexivity.
Qed.

Lemma count_between (a b : nat) :
  forall (len st : nat),
    List.length (filter (fun k => (a <=? k)%nat && (k <? b)%nat) (seq st len))
    = (Nat.min b (st + len) - Nat.max a st)%nat.
Proof.
  induction len as [|len IH]; intro st; cbn [seq filter].
  - simpl. lia.
  - destruct (Nat.leb_spec a st); destruct (Nat.ltb_spec st b);
      cbn [andb List.length]; rewrite IH; lia.
Qed.

(** The number of slopes a profile of [n] nodes gets: [n - W + 1], none
    for a profile shorter than the window. *)
Lemma profile_valid_count (d e : list Q) (W : Z) :
  List.length d = List.length e ->
  StronglySorted Qlt d ->
  3 <= W -> Z.odd W = true ->
  Py.len (filter (fun c => negb (isnan c))
            (profile_slopes (floats_of d) (floats_of e) W))
  = Z.max 0 (Py.len d - W + 1).
Proof.
  intros Hlen Hsorted HW Hodd.
  pose proof (odd_half W Hodd) as Hhalf.
  assert (Hpts : Py.len (combine (floats_of d) (floats_of e)) = Py.len d).
  { unfold Py.len, floats_of. rewrite length_combine, !length_map. lia. }
  unfold profile_slopes. rewrite Hpts. unfold Py.range.
  rewrite !filter_map_swap. unfold Py.len at 1. rewrite !length_map.
  set (pts := combine (floats_of d) (floats_of e)) in *.
  set (s := (W - 1) / 2) in *.
  unfold Py.len. rewrite Nat2Z.id.
  rewrite (@filter_ext_in _ _
             (fun k => (Z.to_nat s <=? k)%nat
                       && (k <? List.length d - Z.to_nat s)%nat)).
  - rewrite count_between. lia.
  - intros k Hk. apply in_seq in Hk.
    destruct (Nat.leb_spec (Z.to_nat s) k) as [H1|H1];
      [destruct (Nat.ltb_spec k (List.length d - Z.to_nat s)) as [H2|H2]|];
      cbn [andb].
    + unfold pts.
      rewrite slope_at_interior_defined; try assumption; try reflexivity;
        unfold Py.len; fold s; lia.
    + rewrite slope_at_edge; [reflexivity | rewrite Hpts; unfold Py.len; lia |].
      right. rewrite Hpts. unfold Py.len. lia.
    + rewrite slope_at_edge; [reflexivity | rewrite Hpts; unfold Py.len; lia |].
      left. lia.
Qed.

Lemma take_mask_map {A B} (f : A -> B) (mask : list bool) (xs : list A) :
  take_mask mask (map f xs) = map f (take_mask mask xs).
Proof.
  revert xs. induction mask as [|b m IH]; intros [|x r]; simpl; try reflexivity.
  destruct b; simpl; now rewrite IH.
Qed.

Lemma take_mask_ids_filter (a : Z) (ids : list Z) :
  take_mask (id_mask ids a) ids = filter (Z.eqb a) ids.
Proof. apply take_mask_map_filter. Qed.

(** The table a run of [CalculateSlope] leaves, and the number of slopes
    in it that are not missing, source by source. *)
Lemma CalculateSlope_leaves (w : world) (df : ref) (W : Z) (frame : DataFrame)
  (ids : list Z) (dq eq : list Q) :
  nth_error (heap w) df = Some frame ->
  rectangular frame ->
  id frame = Some ids ->
  ids <> [] ->
  assoc "distance_from_source" (floats frame) = Some (floats_of dq) ->
  assoc "elevation" (floats frame) = Some (floats_of eq) ->
  3 <= W -> Z.odd W = true ->
  exists c,
    CalculateSlope df W w
    = (Ok df,
       mkWorld (set_nth (heap w) df
                  (mkDF (index frame) (id frame)
                        (replace_col "slope" c (floats frame))))
               (log w ++ [EvPrint]))
    /\ List.length c = List.length ids
    /\ forall a, In a ids ->
         StronglySorted Qlt (take_mask (id_mask ids a) dq) ->
         valid_samples (mkDF (index frame) (id frame)
                             (replace_col "slope" c (floats frame))) a
         = Z.max 0 (Py.len (filter (Z.eqb a) ids) - W + 1).
Proof.
  intros Hnth Hrect Hid Hne Hd He HW Hodd.
  destruct (@CalculateSlope_run_shape w df W frame ids _ _
              Hnth Hrect Hid Hd He) as (frame' & Hrun & _ & Hshape).
  destruct (Hshape Hne) as (c & Hframe' & Hlen & Hrows).
  assert (Hdlen : List.length dq = List.length ids).
  { pose proof (@rectangular_assoc_len frame _ _ Hrect Hd) as H.
    unfold floats_of in H. rewrite length_map in H. rewrite H.
    destruct Hrect as [Hr _]. symmetry. now apply Hr. }
  assert (Helen : List.length eq = List.length ids).
  { pose proof (@rectangular_assoc_len frame _ _ Hrect He) as H.
    unfold floats_of in H. rewrite length_map in H. rewrite H.
    destruct Hrect as [Hr _]. symmetry. now apply Hr. }
  exists c. rewrite <- Hframe'. split; [exact Hrun|]. split; [exact Hlen|].
  intros a Ha Hsorted.
  rewrite Hframe'. unfold valid_samples. cbn [id floats].
  rewrite Hid, assoc_replace_eq.
  unfold Py.len at 1. rewrite <- valid_count_filter.
  change (map (Z.eqb a) ids) with (id_mask ids a).
  rewrite (Hrows a Ha). unfold source_slopes, floats_of.
  rewrite !take_mask_map.
  fold (floats_of (take_mask (id_mask ids a) dq)).
  fold (floats_of (take_mask (id_mask ids a) eq)).
  fold (Py.len (filter (fun c0 : cell => negb (isnan c0))
                  (profile_slopes (floats_of (take_mask (id_mask ids a) dq))
                     (floats_of (take_mask (id_mask ids a) eq)) W))).
  rewrite profile_valid_count; try assumption.
  - rewrite <- take_mask_ids_filter. unfold Py.len.
    rewrite (@take_mask_length _ _ (id_mask ids a) dq ids Hdlen).
    reflexivity.
  - apply take_mask_length. congruence.
Qed.



(** ** [PlotProfilesByCluster]: from the table read to the clustering *)

(** X12: [PlotProfilesByCluster] never gets its table [cluster_df]: the
    slope calculation followed by the clustering raises for every table,
    every parameter and whatever the libraries return, so no profile is
    plotted and no clustered table is written. *)
Theorem PlotProfilesByCluster_never_clusters :
  forall (X : Externals) (df : ref) (slope_window_size profile_len step : Z)
         (min_corr : cell) (method : string) (w : world),
    exists e,
      fst (PlotProfilesByCluster_cluster_df X df slope_window_size profile_len
             step min_corr method w) = Raise e.
Proof.
  intros X df W L step mc method w.
  unfold PlotProfilesByCluster_cluster_df, mbind.
  destruct (CalculateSlope df W w) as [[r|e] w1]; [|exists e; reflexivity].
  apply ClusterProfiles_never_returns.
Qed.

(** X13: on a table of numbers with the columns the script reads, an odd
    window size [W >= 3] and a positive profile length,
    [PlotProfilesByCluster] ends in [ValueError] (could not broadcast) as
    soon as one source has enough rows to be retained,
    [n - W + 1 >= profile_len / sqrt(2)] for its [n] rows, whatever step
    was asked for; the table read has then got its column ['slope'] and
    nothing else was written. *)
Theorem PlotProfilesByCluster_long_profile :
  forall (X : Externals) (w : world) (df : ref) (W profile_len step : Z)
         (min_corr : cell) (method : string)
         (frame : DataFrame) (ids : list Z) (dq eq : list Q)
         (acol : list cell) (a : Z),
    nth_error (heap w) df = Some frame ->
    rectangular frame ->
    id frame = Some ids ->
    assoc "distance_from_source" (floats frame) = Some (floats_of dq) ->
    assoc "elevation" (floats frame) = Some (floats_of eq) ->
    assoc "drainage_areas" (floats frame) = Some acol ->
    In a ids ->
    StronglySorted Qlt (take_mask (id_mask ids a) dq) ->
    3 <= W -> Z.odd W = true ->
    0 < profile_len ->
    (IZR profile_len / sqrt 2
     <= IZR (Py.len (filter (Z.eqb a) ids) - W + 1))%R ->
    exists c,
      PlotProfilesByCluster_cluster_df X df W profile_len step min_corr method w
      = (Raise (ValueError "could not broadcast input array"),
         mkWorld (set_nth (heap w) df
                    (mkDF (index frame) (id frame)
                          (replace_col "slope" c (floats frame))))
                 (log w ++ [EvPrint; EvPrint; EvResample])).
Proof.
  intros X w df W L step mc method frame ids dq eq acol a
         Hnth Hrect Hid Hd He Har Ha Hsorted HW Hodd HL Hlong.
  assert (Hlt : (df < List.length (heap w))%nat)
    by (apply nth_error_Some; congruence).
  assert (Hne : ids <> []) by (intro E; rewrite E in Ha; destruct Ha).
  destruct (@CalculateSlope_leaves w df W frame ids dq eq
              Hnth Hrect Hid Hne Hd He HW Hodd) as (c & Hrun & Hclen & Hvalid).
  specialize (Hvalid a Ha Hsorted).
  set (frame' := mkDF (index frame) (id frame)
                      (replace_col "slope" c (floats frame))) in *.
  assert (Hq : qualifies frame' L a = true).
  { unfold qualifies. rewrite Hvalid. apply reaches_min_length_real; [lia|].
    eapply Rle_trans; [exact Hlong|]. apply IZR_le. lia. }
  assert (Hid' : id frame' = Some ids) by exact Hid.
  assert (Hsl' : assoc "slope" (floats frame') = Some c)
    by apply assoc_replace_eq.
  assert (Hd' : assoc "distance_from_source" (floats frame')
                = Some (floats_of dq)).
  { unfold frame'. cbn [floats]. now rewrite assoc_replace_neq. }
  assert (Har' : assoc "drainage_areas" (floats frame') = Some acol).
  { unfold frame'. cbn [floats]. now rewrite assoc_replace_neq. }
  destruct (@select_fold_run frame' L ids c (floats_of dq) acol
              Hid' Hsl' Hd' Har' (unique ids) [] empty_frame [])
    as (profiles & Hf & Hplen).
  cbn [app] in Hf, Hplen. specialize (Hplen eq_refl).
  assert (Hin : In a (filter (qualifies frame' L) (unique ids))).
  { apply filter_In. split; [now apply unique_In | exact Hq]. }
  destruct profiles as [|p ps].
  { destruct (filter (qualifies frame' L) (unique ids));
      [destruct Hin | discriminate Hplen]. }
  assert (Hsel : select_profiles frame' L
                 = Ok (p :: ps,
                       fold_left append
                         (map (valid_rows frame')
                            (filter (qualifies frame' L) (unique ids)))
                         empty_frame,
                       filter (qualifies frame' L) (unique ids))).
  { unfold select_profiles, get_id. rewrite Hid'. exact Hf. }
  pose proof (@resample_raises_when_retained frame' L 1 p ps _ _
                ltac:(lia) HL Hsel) as Hres.
  exists c.
  unfold PlotProfilesByCluster_cluster_df, mbind. rewrite Hrun.
  rewrite ClusterProfiles_unfold. cbn [heap log].
  rewrite (@ResampleProfiles_fst _ df L 1 frame')
    by (cbn [heap]; now apply nth_set_nth_eq).
  rewrite Hres. cbn [heap log]. rewrite <- !app_assoc. reflexivity.
Qed.

Lemma PlotProfilesByCluster_long_profile_witness :
  exists c,
    PlotProfilesByCluster_cluster_df checking_libraries 0%nat 3 7 0
      (Num (1 # 2)) "complete" survey_world
    = (Raise (ValueError "could not broadcast input array"),
       mkWorld (set_nth (heap survey_world) 0
                  (mkDF (index survey_frame) (id survey_frame)
                        (replace_col "slope" c (floats survey_frame))))
               (log survey_world ++ [EvPrint; EvPrint; EvResample])).
Proof.
  apply (@PlotProfilesByCluster_long_profile checking_libraries survey_world
           0%nat 3 7 0 (Num (1 # 2)) "complete" survey_frame
           [7; 7; 7; 7; 7; 7; 7; 9; 9; 9]
           [0; 1; 2; 3; 4; 5; 6; 0; 1; 2]%Q
           [20; 18; 16; 14; 12; 10; 8; 5; 4; 3]%Q
           (floats_of [1; 2; 3; 4; 5; 6; 7; 1; 2; 3]%Q) 7).
  - reflexivity.
  - exact survey_frame_rectangular.
  - reflexivity.
  - reflexivity.
  - reflexivity.
  - reflexivity.
  - simpl. auto.
  - cbn. repeat constructor.
  - lia.
  - reflexivity.
  - lia.
  - change (Py.len (filter (Z.eqb 7) [7; 7; 7; 7; 7; 7; 7; 9; 9; 9]) - 3 + 1)
      with 5.
    apply Rmult_le_reg_r with (r := sqrt 2); [exact Rlt_sqrt2_0|].
    unfold Rdiv. rewrite Rmult_assoc, Rinv_l by (pose proof Rlt_sqrt2_0; lra).
    assert (Hs : (7 / 5 <= sqrt 2)%R).
    { apply Rsqr_incr_0_var; [|pose proof Rlt_sqrt2_0; lra].
      rewrite Rsqr_sqrt by lra. unfold Rsqr. lra. }
    lra.
Defined.

(** ** [ResampleProfiles]: the table [thinned_df] *)

Lemma existsb_assoc (k : string) (cols : list (string * list cell)) :
  existsb (String.eqb k) (map fst cols)
  = match assoc k cols with Some _ => true | None => false end.
Proof.
  induction cols as [|[k' v] r IH]; simpl; [reflexivity|].
  destruct (String.eqb k k'); [reflexivity | exact IH].
Qed.

Lemma existsb_filter_eqb (g : string -> bool) (k : string) (l : list string) :
  existsb (String.eqb k) (filter g l) = g k && existsb (String.eqb k) l.
Proof.
  induction l as [|a r IH]; cbn [filter existsb].
  - now rewrite andb_false_r.
  - destruct (String.eqb_spec k a) as [->|Hne].
    + destruct (g a) eqn:Ea; cbn [existsb orb andb].
      * now rewrite String.eqb_refl.
      * rewrite IH. rewrite ?Ea. reflexivity.
    + destruct (g a) eqn:Ea; cbn [existsb orb].
      * destruct (String.eqb_spec k a); [contradiction|]. exact IH.
      * exact IH.
Qed.

Lemma assoc_names (F : string -> list cell) (names : list string) (k : string) :
  assoc k (map (fun k' => (k', F k')) names)
  = if existsb (String.eqb k) names then Some (F k) else None.
Proof.
  induction names as [|a r IH]; cbn [map assoc existsb]; [reflexivity|].
  destruct (String.eqb_spec k a) as [->|Hne]; [reflexivity | exact IH].
Qed.

(** A float column of [df.append(other)]. *)
Lemma assoc_append (k : string) (d o : DataFrame) :
  assoc k (floats (append d o))
  = match assoc k (floats d), assoc k (floats o) with
    | None, None => None
    | a, b => Some (append_col (List.length (index d))
                      (List.length (index o)) a b)
    end.
Proof.
  unfold append. cbn [floats].
  rewrite assoc_names, existsb_app, existsb_assoc, existsb_filter_eqb,
    existsb_assoc.
  destruct (assoc k (floats d)), (assoc k (floats o)); reflexivity.
Qed.

Lemma fold_append_column (P : cell -> Prop) (k : string) (l : list DataFrame) :
  (forall x, In x l ->
     exists ys, assoc k (floats x) = Some ys /\ Forall P ys) ->
  forall d xs,
    assoc k (floats d) = Some xs -> Forall P xs ->
    exists zs,
      assoc k (floats (fold_left append l d)) = Some zs /\ Forall P zs.
Proof.
  induction l as [|x rest IH]; intros Hl d xs Hd Hxs; [eauto|].
  cbn [fold_left].
  destruct (Hl x (or_introl eq_refl)) as (ys & Hy & Hys).
  apply (IH (fun y Hy => Hl y (or_intror Hy)) (append d x) (xs ++ ys)).
  - rewrite assoc_append, Hd, Hy. reflexivity.
  - apply Forall_app. auto.
Qed.

Lemma thinned_column (P : cell -> Prop) (k : string) (l : list DataFrame) :
  l <> [] ->
  (forall x, In x l ->
     exists ys, assoc k (floats x) = Some ys /\ Forall P ys) ->
  exists zs,
    assoc k (floats (fold_left append l empty_frame)) = Some zs /\ Forall P zs.
Proof.
  intros Hne Hl. destruct l as [|x rest]; [congruence|].
  cbn [fold_left].
  destruct (Hl x (or_introl eq_refl)) as (ys & Hy & Hys).
  apply (@fold_append_column P k rest (fun y Hy => Hl y (or_intror Hy))
           (append empty_frame x) ys); [|exact Hys].
  rewrite assoc_append, Hy. reflexivity.
Qed.

Lemma valid_rows_slope (frame : DataFrame) (source : Z)
  (ids : list Z) (sl : list cell) :
  id frame = Some ids ->
  assoc "slope" (floats frame) = Some sl ->
  exists ys,
    assoc "slope" (floats (valid_rows frame source)) = Some ys
    /\ Forall (fun c => isnan c = false) ys.
Proof.
  intros Hid Hsl. unfold valid_rows. rewrite Hid, assoc_select, Hsl.
  cbn [option_map]. rewrite !assoc_select, Hsl. cbn [option_map].
  rewrite take_mask_map_filter. eexists. split; [reflexivity|].
  apply Forall_forall. intros c Hc. apply filter_In in Hc as [_ Hc].
  now destruct (isnan c).
Qed.

(** In a table without missing slopes the valid samples of a source are
    its rows. *)
Lemma valid_samples_clean (d : DataFrame) (tids : list Z) (tsl : list cell)
  (s : Z) :
  id d = Some tids ->
  assoc "slope" (floats d) = Some tsl ->
  List.length tsl = List.length tids ->
  Forall (fun c => isnan c = false) tsl ->
  valid_samples d s = Py.len (filter (Z.eqb s) tids).
Proof.
  intros Hid Hsl Hlen Hall. unfold valid_samples. rewrite Hid, Hsl.
  unfold Py.len. f_equal. clear Hid Hsl.
  revert tsl Hlen Hall.
  induction tids as [|x r IH]; intros [|c tsl] Hlen Hall;
    try discriminate Hlen; [reflexivity|].
  inversion Hall as [|? ? Hc Hrest]; subst.
  cbn [combine filter fst snd]. rewrite Hc. cbn [negb]. rewrite andb_true_r.
  destruct (s =? x); cbn [List.length]; rewrite (IH tsl); auto.
Qed.

Lemma count_in_blocks (block : Z -> list Z) (s : Z) (l : list Z) :
  NoDup l ->
  (forall a, Forall (eq a) (block a)) ->
  List.length (filter (Z.eqb s) (List.concat (map block l)))
  = if existsb (Z.eqb s) l then List.length (block s) else 0%nat.
Proof.
  intros Hnd Hb. induction Hnd as [|x rest Hx Hnd IH]; [reflexivity|].
  cbn [map List.concat existsb]. rewrite filter_app, length_app, IH.
  destruct (Z.eqb_spec s x) as [->|Hne]; cbn [orb].
  - rewrite filter_all.
    2:{ intros z Hz. specialize (Hb x). rewrite Forall_forall in Hb.
        rewrite <- (Hb z Hz). apply Z.eqb_refl. }
    destruct (existsb (Z.eqb x) rest) eqn:E; [|lia].
    apply existsb_exists in E as (y & Hy & Hxy).
    apply Z.eqb_eq in Hxy. subst y. contradiction.
  - rewrite filter_none; [reflexivity|].
    intros z Hz. specialize (Hb x). rewrite Forall_forall in Hb.
    rewrite <- (Hb z Hz). now apply Z.eqb_neq.
Qed.

(** X14: the table [thinned_df] the first loop of [ResampleProfiles]
    builds holds, for every retained source, exactly its rows that have a
    slope, and no row of any other source: it is rectangular, no slope in
    it is missing, and a source has as many rows in it as it has valid
    samples in the table read if it is retained, none otherwise. *)
Theorem thinned_table_rows :
  forall (frame : DataFrame) (profile_len : Z) (ids : list Z)
         (sl dcol acol : list cell)
         (profiles : list profile) (thinned : DataFrame) (final_sources : list Z),
    rectangular frame ->
    id frame = Some ids ->
    assoc "slope" (floats frame) = Some sl ->
    assoc "distance_from_source" (floats frame) = Some dcol ->
    assoc "drainage_areas" (floats frame) = Some acol ->
    select_profiles frame profile_len = Ok (profiles, thinned, final_sources) ->
    rectangular thinned
    /\ (forall tsl, assoc "slope" (floats thinned) = Some tsl ->
          Forall (fun c => isnan c = false) tsl)
    /\ (forall s,
          Py.len (filter (Z.eqb s) (id_column thinned))
          = if existsb (Z.eqb s) final_sources
            then valid_samples frame s else 0)
    /\ (forall s,
          valid_samples thinned s
          = if existsb (Z.eqb s) final_sources
            then valid_samples frame s else 0).
Proof.
  intros frame L ids sl dcol acol profiles thinned fs
         Hrect Hid Hsl Hd Ha Hsel.
  destruct (@select_fold_run frame L ids sl dcol acol Hid Hsl Hd Ha
              (unique ids) [] empty_frame [])
    as (profiles' & Hf & _).
  cbn [app] in Hf.
  unfold select_profiles, get_id in Hsel. rewrite Hid in Hsel.
  cbn [bind] in Hsel. rewrite Hf in Hsel. injection Hsel as <- <- <-.
  set (fs := filter (qualifies frame L) (unique ids)).
  set (thinned := fold_left append (map (valid_rows frame) fs) empty_frame).
  assert (Hsl_len : List.length sl = List.length ids).
  { rewrite (@rectangular_assoc_len frame "slope" sl Hrect Hsl). symmetry.
    destruct Hrect as [Hr _]. now apply Hr. }
  assert (Hrect_t : rectangular thinned).
  { subst thinned. apply rectangular_fold_append; [|apply rectangular_empty].
    apply Forall_forall. intros x Hx. apply in_map_iff in Hx as (s & <- & _).
    now apply rectangular_valid_rows. }
  assert (Hblock : forall a, Forall (eq a) (id_column (valid_rows frame a))
                             /\ Py.len (id_column (valid_rows frame a))
                                = valid_samples frame a
                             /\ id (valid_rows frame a) <> None).
  { intro a.
    destruct (@valid_rows_id frame a ids sl Hid Hsl Hsl_len) as (b & Hb & Hall & Hl).
    unfold id_column. rewrite Hb. split; [exact Hall|].
    split; [exact Hl | discriminate]. }
  assert (Hcase : fs = [] \/ fs <> [])
    by (destruct fs; [now left | right; discriminate]).
  destruct Hcase as [Hnil | Hne].
  - assert (Ht : thinned = empty_frame) by (subst thinned; now rewrite Hnil).
    rewrite Ht, Hnil. split; [apply rectangular_empty|].
    split; [intros tsl H; discriminate H|]. split; intro s; reflexivity.
  - assert (Hid_t : id thinned
                    = Some (List.concat
                              (map id_column (map (valid_rows frame) fs)))).
    { subst thinned. apply thinned_id.
      - destruct fs; [congruence | discriminate].
      - intros x Hx. apply in_map_iff in Hx as (s & <- & Hs).
        apply Hblock. }
    rewrite map_map in Hid_t.
    destruct (@thinned_column (fun c => isnan c = false) "slope"
                (map (valid_rows frame) fs)) as (tsl & Htsl & Hclean).
    { destruct fs; [congruence | discriminate]. }
    { intros x Hx. apply in_map_iff in Hx as (s & <- & _).
      now apply valid_rows_slope with (ids := ids) (sl := sl). }
    fold thinned in Htsl.
    assert (Hcount : forall s,
              Py.len (filter (Z.eqb s)
                        (List.concat
                           (map (fun s => id_column (valid_rows frame s)) fs)))
              = if existsb (Z.eqb s) fs then valid_samples frame s else 0).
    { intro s. unfold Py.len. rewrite count_in_blocks.
      - destruct (existsb (Z.eqb s) fs); [|reflexivity].
        destruct (Hblock s) as (_ & Hl & _). exact Hl.
      - subst fs. apply NoDup_filter, unique_NoDup.
      - intro a. apply Hblock. }
    split; [exact Hrect_t|]. split; [|split].
    + intros tsl' H. rewrite Htsl in H. injection H as <-. exact Hclean.
    + intro s. unfold id_column. rewrite Hid_t. apply Hcount.
    + intro s.
      rewrite (@valid_samples_clean thinned _ tsl s Hid_t Htsl); [apply Hcount| |exact Hclean].
      rewrite (@rectangular_assoc_len thinned "slope" tsl Hrect_t Htsl).
      symmetry. destruct Hrect_t as [Hr _]. now apply Hr.
Qed.

Lemma thinned_table_rows_witness :
  rectangular survey_thinned
  /\ (forall tsl, assoc "slope" (floats survey_thinned) = Some tsl ->
        Forall (fun c => isnan c = false) tsl)
  /\ (forall s,
        Py.len (filter (Z.eqb s) (id_column survey_thinned))
        = if existsb (Z.eqb s) [7; 9]
          then valid_samples survey_frame s else 0)
  /\ (forall s,
        valid_samples survey_thinned s
        = if existsb (Z.eqb s) [7; 9]
          then valid_samples survey_frame s else 0).
Proof.
  apply (@thinned_table_rows survey_frame 1
           [7; 7; 7; 7; 7; 7; 7; 9; 9; 9]
           [NaN; Num 2; Num 2; Num 2; Num 2; Num 2; NaN; NaN; Num 1; NaN]
           (floats_of [0; 1; 2; 3; 4; 5; 6; 0; 1; 2]%Q)
           (floats_of [1; 2; 3; 4; 5; 6; 7; 1; 2; 3]%Q)
           survey_profiles survey_thinned [7; 9]).
  - exact survey_frame_rectangular.
  - reflexivity.
  - reflexivity.
  - reflexivity.
  - reflexivity.
  - exact survey_selection.
Defined.

(** ** [find_nearest_idx]: the order of the indices *)

Lemma searchsorted_mono (array : list Q) (v v' : Q) :
  (v <= v')%Q ->
  searchsorted_left (floats_of array) (Num v)
  <= searchsorted_left (floats_of array) (Num v').
Proof.
  intro Hv. induction array as [|x rest IH]; cbn [floats_of map searchsorted_left np_lt];
    [lia|].
  fold (floats_of rest).
  pose proof (searchsorted_range (floats_of rest) (Num v')) as Hr.
  destruct (Qlt_bool x v) eqn:E.
  - apply Qlt_bool_iff in E.
    assert (E' : Qlt_bool x v' = true) by (apply Qlt_bool_iff; lra).
    rewrite E'. lia.
  - destruct (Qlt_bool x v'); lia.
Qed.

(** The three ways [find_nearest_idx] answers on a sorted array. *)
Lemma find_nearest_idx_cases (array : list Q) (value : Q) :
  StronglySorted Qle array ->
  array <> [] ->
  let idx := searchsorted_left (floats_of array) (Num value) in
  (idx = 0 /\ find_nearest_idx (floats_of array) (Num value) = Ok 0)
  \/ (idx = Py.len array
      /\ find_nearest_idx (floats_of array) (Num value) = Ok (idx - 1))
  \/ (0 < idx < Py.len array
      /\ exists b a,
           nth_error array (Z.to_nat (idx - 1)) = Some b
           /\ nth_error array (Z.to_nat idx) = Some a
           /\ (b < value)%Q /\ (value <= a)%Q
           /\ (((value - b < a - value)%Q
                /\ find_nearest_idx (floats_of array) (Num value)
                   = Ok (idx - 1))
               \/ ((a - value <= value - b)%Q
                   /\ find_nearest_idx (floats_of array) (Num value)
                      = Ok idx))).
Proof.
  intros Hs Hne idx.
  pose proof (searchsorted_range (floats_of array) (Num value)) as Hr.
  destruct (searchsorted_prefix array value) as [Hbefore _].
  pose proof (searchsorted_suffix value Hs) as Hafter.
  unfold find_nearest_idx. fold idx. fold idx in Hr, Hbefore, Hafter.
  unfold floats_of in Hr. rewrite len_map in Hr.
  assert (Hlen : 0 < Py.len array).
  { destruct array; [congruence|]. rewrite len_cons.
    pose proof (len_nonneg array). lia. }
  assert (Hget : forall k : Z, 0 <= k < Py.len array ->
            exists a, nth_error array (Z.to_nat k) = Some a).
  { intros k Hk. destruct (nth_error array (Z.to_nat k)) eqn:E; eauto.
    apply nth_error_None in E. unfold Py.len in Hk. lia. }
  assert (Hl : Py.len (floats_of array) = Py.len array)
    by (unfold floats_of; apply len_map).
  rewrite Hl.
  destruct (Z.ltb_spec 0 idx) as [Hpos|Hz].
  - destruct (Z.eqb_spec idx (Py.len array)) as [He|Hn].
    + right. left. split; [exact He | reflexivity].
    + right. right. split; [lia|].
      destruct (Hget (idx - 1)) as [b Hb]; [lia|].
      destruct (Hget idx) as [a Ha]; [lia|].
      assert (Hbv : (b < value)%Q)
        by (apply (Hbefore (Z.to_nat (idx - 1))); [lia | exact Hb]).
      assert (Hva : (value <= a)%Q)
        by (apply (Hafter (Z.to_nat idx)); [lia | exact Ha]).
      assert (Hgb : Py.getitem (floats_of array) (idx - 1) = Ok (Num b)).
      { rewrite <- (Z2Nat.id (idx - 1)) by lia.
        apply getitem_nth, floats_of_nth. exact Hb. }
      assert (Hga : Py.getitem (floats_of array) idx = Ok (Num a)).
      { rewrite <- (Z2Nat.id idx) by lia.
        apply getitem_nth, floats_of_nth. exact Ha. }
      rewrite Hgb, Hga.
      cbn [bind csub fabs cabs cell_ltb].
      assert (Eb : (Qabs (value - b) == value - b)%Q) by (apply Qabs_pos; lra).
      assert (Ea : (Qabs (value - a) == a - value)%Q)
        by (rewrite (Qabs_Qminus value a); apply Qabs_pos; lra).
      exists b, a. split; [exact Hb|]. split; [exact Ha|].
      split; [exact Hbv|]. split; [exact Hva|].
      destruct (Qlt_bool (Qabs (value - b)) (Qabs (value - a))) eqn:E.
      * apply Qlt_bool_iff in E. rewrite Eb, Ea in E. left. auto.
      * right. split; [|reflexivity].
        apply Qnot_lt_le. intro H. rewrite <- Eb, <- Ea in H.
        apply Qlt_bool_iff in H. congruence.
  - left. assert (E : idx = 0) by lia. split; [exact E|]. now rewrite E.
Qed.

(** X15: on a sorted array [find_nearest_idx] keeps the order: a larger
    value never gets a smaller index, so a grid of increasing distances is
    mapped to samples in downstream order. *)
Theorem find_nearest_idx_monotone :
  forall (array : list Q) (v v' : Q) (i i' : Z),
    StronglySorted Qle array ->
    array <> [] ->
    (v <= v')%Q ->
    find_nearest_idx (floats_of array) (Num v) = Ok i ->
    find_nearest_idx (floats_of array) (Num v') = Ok i' ->
    i <= i'.
Proof.
  intros array v v' i i' Hs Hne Hv Hi Hi'.
  pose proof (searchsorted_mono array Hv) as Hmono.
  pose proof (find_nearest_idx_cases v Hs Hne) as Hc.
  pose proof (find_nearest_idx_cases v' Hs Hne) as Hc'.
  assert (Hlen : 0 < Py.len array).
  { destruct array; [congruence|]. rewrite len_cons.
    pose proof (len_nonneg array). lia. }
  cbv zeta in Hc, Hc'.
  set (k := searchsorted_left (floats_of array) (Num v)) in *.
  set (k' := searchsorted_left (floats_of array) (Num v')) in *.
  clearbody k k'.
  rewrite Hi in Hc. rewrite Hi' in Hc'.
  destruct Hc as [[Hk E] | [[Hk E] | (Hk & b & a & Hb & Ha & Hbv & Hva & Hc)]];
    destruct Hc' as [[Hk' E'] | [[Hk' E'] | (Hk' & b' & a' & Hb' & Ha' & Hbv' & Hva' & Hc')]].
  all: repeat match goal with
              | H : (_ /\ _) \/ (_ /\ _) |- _ => destruct H as [[? ?] | [? ?]]
              end.
  all: repeat match goal with
              | H : Ok _ = Ok _ |- _ => injection H as H
              end.
  all: try lia.
  all: destruct (Z.eq_dec k k') as [Heq|Hneq]; [|lia].
  all: subst k'; rewrite Hb in Hb'; rewrite Ha in Ha';
    injection Hb' as <-; injection Ha' as <-; lra.
Qed.

Lemma find_nearest_idx_monotone_witness :
  find_nearest_idx (floats_of [0; 2; 5]%Q) (Num 1) = Ok 1
  /\ find_nearest_idx (floats_of [0; 2; 5]%Q) (Num 4) = Ok 2
  /\ 1 <= 2.
Proof.
  split; [reflexivity|]. split; [reflexivity|].
  apply (@find_nearest_idx_monotone [0; 2; 5]%Q 1%Q 4%Q 1 2).
  - repeat constructor; unfold Qle; simpl; lia.
  - discriminate.
  - unfold Qle. simpl. lia.
  - reflexivity.
  - reflexivity.
Defined.
